(** * Tzolkin oracle (tzolkin_oraculo.py): Kin of a date and its oracle

    A shallow embedding of [tzolkin_oraculo.py] and the properties of its
    correlation engine: the leap-day adjustment, the date -> Kin mapping, the
    inverse (seal, tone) -> Kin search and the four oracle rules.

    Python integers are [Z]; Python's [%] with a positive divisor is
    [Z.modulo] and [//] is [Z.div] (both floor).  Python exceptions are the
    [Raise] results of a small error monad.  Dictionaries are stdpp [gmap]s,
    lists are Rocq lists read through Python's indexing rule. *)

From Stdlib Require Import ZArith Lia.
From stdpp Require Import base option list list_numbers gmap strings.

Local Open Scope Z_scope.

(** ** Exceptions and results *)

Inductive exn : Type :=
  | ValueError
  | KeyError
  | TypeError
  | IndexError.

Inductive result (A : Type) : Type :=
  | Ok (a : A)
  | Raise (e : exn).

Arguments Ok {A} a.
Arguments Raise {A} e.

#[global] Instance result_ret : MRet result := fun A a => Ok a.

#[global] Instance result_bind : MBind result := fun A B k m =>
  match m with
  | Ok a => k a
  | Raise e => Raise e
  end.

(** ** Python built-ins used by the program *)

Module Py.

(** [range(a, b)]: a, a+1, ..., b-1. *)
Definition range (a b : Z) : list Z := seqZ a (b - a).

(** [l[i]] on a list: a negative index counts from the end, an index out
    of range raises IndexError. *)
Definition getitem {A : Type} (l : list A) (i : Z) : result A :=
  let n := Z.of_nat (length l) in
  let j := if i <? 0 then i + n else i in
  if (0 <=? j) && (j <? n)
  then match l !! Z.to_nat j with
       | Some x => Ok x
       | None => Raise IndexError
       end
  else Raise IndexError.

(** [d[k]] on a dict: a missing key raises KeyError. *)
Definition dict_get {K : Type} `{Countable K} {V : Type}
    (d : gmap K V) (k : K) : result V :=
  match d !! k with
  | Some v => Ok v
  | None => Raise KeyError
  end.

(** [l[i]] where [i] may be [None]: indexing a list by None is a TypeError. *)
Definition getitem_opt {A : Type} (l : list A) (i : option Z) : result A :=
  match i with
  | Some i => getitem l i
  | None => Raise TypeError
  end.

(** A [for] loop whose body updates one accumulator and may raise. *)
Fixpoint for_each {A S : Type} (body : S -> A -> result S) (xs : list A) (s : S)
    : result S :=
  match xs with
  | [] => Ok s
  | x :: xs' => s' ← body s x; for_each body xs' s'
  end.

End Py.

(** ** The standard library's [datetime.date]

    The part of Python's [datetime] the program uses: construction with its
    field check, comparison, and subtraction (through the proleptic Gregorian
    ordinal).  Definitions follow the library's own helper functions. *)

Module datetime.

Definition MINYEAR : Z := 1.
Definition MAXYEAR : Z := 9999.

Record date : Type := mkdate { year : Z; month : Z; day : Z }.

(** The library's own leap test (its [_is_leap]). *)
Definition is_leap_year (y : Z) : bool :=
  (y mod 4 =? 0) && (negb (y mod 100 =? 0) || (y mod 400 =? 0)).

Definition _DAYS_IN_MONTH : list Z :=
  [-1; 31; 28; 31; 30; 31; 30; 31; 31; 30; 31; 30; 31].

Definition _DAYS_BEFORE_MONTH : list Z :=
  [-1; 0; 31; 59; 90; 120; 151; 181; 212; 243; 273; 304; 334].

Definition _days_before_year (y : Z) : Z :=
  let y := y - 1 in
  y * 365 + y / 4 - y / 100 + y / 400.

Definition _days_in_month (y m : Z) : Z :=
  if (m =? 2) && is_leap_year y then 29
  else nth (Z.to_nat m) _DAYS_IN_MONTH 0.

Definition _days_before_month (y m : Z) : Z :=
  nth (Z.to_nat m) _DAYS_BEFORE_MONTH 0
  + (if (2 <? m) && is_leap_year y then 1 else 0).

Definition _ymd2ord (y m d : Z) : Z :=
  _days_before_year y + _days_before_month y m + d.

(** [_check_date_fields] as a boolean. *)
Definition check_date_fields (y m d : Z) : bool :=
  (MINYEAR <=? y) && (y <=? MAXYEAR)
  && (1 <=? m) && (m <=? 12)
  && (1 <=? d) && (d <=? _days_in_month y m).

(** A date value that the constructor accepts. *)
Definition valid (x : date) : Prop :=
  check_date_fields (year x) (month x) (day x) = true.

(** [date(y, m, d)]: raises ValueError on fields out of range. *)
Definition new (y m d : Z) : result date :=
  if check_date_fields y m d then Ok (mkdate y m d) else Raise ValueError.

Definition toordinal (x : date) : Z :=
  _ymd2ord (year x) (month x) (day x).

(** [_cmp] on the (year, month, day) tuples. *)
Definition cmp (x y : date) : comparison :=
  match year x ?= year y with
  | Eq => match month x ?= month y with
          | Eq => day x ?= day y
          | c => c
          end
  | c => c
  end.

Definition eqb (x y : date) : bool :=
  match cmp x y with Eq => true | _ => false end.
Definition ltb (x y : date) : bool :=
  match cmp x y with Lt => true | _ => false end.
Definition leb (x y : date) : bool :=
  match cmp x y with Gt => false | _ => true end.
Definition gtb (x y : date) : bool :=
  match cmp x y with Gt => true | _ => false end.

(** [(x - y).days] *)
Definition sub_days (x y : date) : Z := toordinal x - toordinal y.

End datetime.

Import datetime.

(** ** The program's tables *)

Definition SEALS : list string :=
  ["Dragão"; "Vento"; "Noite"; "Semente"; "Serpente";
   "Enlaçador de Mundos"; "Mão"; "Estrela"; "Lua"; "Cão";
   "Macaco"; "Humano"; "Caminhante do Céu"; "Mago"; "Águia";
   "Guerreiro"; "Terra"; "Espelho"; "Tempestade"; "Sol"]%string.

Definition TONES : list string :=
  ["Magnético"; "Lunar"; "Elétrico"; "Autoexistente"; "Harmônico";
   "Rítmico"; "Ressonante"; "Galáctico"; "Solar"; "Planetário";
   "Espectral"; "Cristal"; "Cósmico"]%string.

Definition COLORS : list string :=
  ["Vermelho"; "Branco"; "Azul"; "Amarelo"]%string.

Definition ANCHOR_DATE : date := mkdate 2012 12 20.
Definition ANCHOR_KIN : Z := 206.

(** ** Leap adjustment and the forward mapping *)

Definition _is_leap (year : Z) : bool :=
  (year mod 4 =? 0) && (negb (year mod 100 =? 0) || (year mod 400 =? 0)).

(** The body of the loop of [_hunab_ku_adjust] for one year [y]. *)
Definition count_feb29 (mn mx : date) (count : Z) (y : Z) : result Z :=
  if _is_leap y then
    feb29 ← datetime.new y 2 29;
    if datetime.gtb feb29 mn && datetime.leb feb29 mx
    then Ok (count + 1)
    else Ok count
  else Ok count.

Definition _hunab_ku_adjust (anchor target : date) : result Z :=
  if datetime.eqb target anchor then Ok 0
  else
    let '(mn, mx) :=
      if datetime.ltb anchor target then (anchor, target) else (target, anchor) in
    count ← Py.for_each (count_feb29 mn mx) (Py.range (year mn) (year mx + 1)) 0;
    Ok (if datetime.gtb target anchor then - count else count).

Definition kin_from_date (d : date) : result (Z * Z * Z * string) :=
  adj ← _hunab_ku_adjust ANCHOR_DATE d;
  let delta := datetime.sub_days d ANCHOR_DATE + adj in
  let kin := (delta + (ANCHOR_KIN - 1)) mod 260 + 1 in
  let tone := (kin - 1) mod 13 + 1 in
  let seal := (kin - 1) mod 20 + 1 in
  color ← Py.getitem COLORS ((seal - 1) mod 4);
  Ok (kin, tone, seal, color).

(** ** The inverse mapping *)

(** The loop of [kin_from_seal_tone] over the remaining values [ks] of [k]:
    the first [k] with both residues is returned, and running out of values
    reaches the [raise] after the loop. *)
Fixpoint kin_search (seal tone : Z) (ks : list Z) : result Z :=
  match ks with
  | [] => Raise ValueError
  | k :: ks' =>
      if ((k - 1) mod 20 + 1 =? seal) && ((k - 1) mod 13 + 1 =? tone)
      then Ok k
      else kin_search seal tone ks'
  end.

Definition kin_from_seal_tone (seal tone : Z) : result Z :=
  kin_search seal tone (Py.range 1 261).

(** ** The oracle rules *)

Definition analog_seal (seal : Z) : Z :=
  let r := (19 - seal mod 20) mod 20 in
  if r =? 0 then 20 else r.

Definition antipode_seal (seal : Z) : Z :=
  (seal + 9) mod 20 + 1.

Definition occult_seal (seal : Z) : Z :=
  let r := (21 - seal mod 20) mod 20 in
  if r =? 0 then 20 else r.

Definition occult_tone (tone : Z) : Z :=
  let r := (14 - tone mod 13) mod 13 in
  if r =? 0 then 13 else r.

Definition GUIDE_INDEX_BY_TONE : gmap Z (option Z) :=
  list_to_map
    [(1, None); (2, Some 4); (3, Some 3); (4, Some 2); (5, Some 3);
     (6, None); (7, Some 2); (8, Some 1); (9, Some 0); (10, Some 2);
     (11, None); (12, Some 1); (13, Some 3)].

Definition COLOR_GROUPS : gmap string (list Z) :=
  list_to_map
    [("Vermelho"%string, [1; 5; 9; 13; 17]);
     ("Branco"%string, [2; 6; 10; 14; 18]);
     ("Azul"%string, [3; 7; 11; 15; 19]);
     ("Amarelo"%string, [4; 8; 12; 16; 20])].

Definition guide_seal (seal tone : Z) : result Z :=
  if (tone =? 1) || (tone =? 6) || (tone =? 11) then Ok seal
  else
    color ← Py.getitem COLORS ((seal - 1) mod 4);
    group ← Py.dict_get COLOR_GROUPS color;
    idx ← Py.dict_get GUIDE_INDEX_BY_TONE tone;
    Py.getitem_opt group idx.

(** ** The oracle record *)

(** One part of the record, with the keys of the source's dict. *)
Record oracle_part : Type := mkpart {
  kin : Z;
  selo_num : Z;
  selo_nome : string;
  tom_num : Z;
  tom_nome : string;
  cor : string
}.

Record oracle : Type := mkoracle {
  data : string;
  destino : oracle_part;
  analogo : oracle_part;
  antipoda : oracle_part;
  guia : oracle_part;
  oculto : oracle_part
}.

(** The inner function [part] of [full_oracle_for_date]. *)
Definition part (seal_num tone_num : Z) : result oracle_part :=
  k ← kin_from_seal_tone seal_num tone_num;
  selo ← Py.getitem SEALS (seal_num - 1);
  tom ← Py.getitem TONES (tone_num - 1);
  c ← Py.getitem COLORS ((seal_num - 1) mod 4);
  Ok (mkpart k seal_num selo tone_num tom c).

Section Oracle.

(** [d.strftime("%d/%m/%Y")]: the rendering of the date, which the
    computation of the Kins never reads. *)
Variable strftime_dmY : date -> string.

Definition full_oracle_for_date (d : date) : result oracle :=
  '(kin0, tone, seal, color) ← kin_from_date d;
  let a_s := analog_seal seal in
  let an_s := antipode_seal seal in
  g_s ← guide_seal seal tone;
  let o_s := occult_seal seal in
  let o_t := occult_tone tone in
  let data := strftime_dmY d in
  p ← part seal tone;
  let destino :=
    mkpart kin0 (selo_num p) (selo_nome p) (tom_num p) (tom_nome p) color in
  analogo ← part a_s tone;
  antipoda ← part an_s tone;
  guia ← part g_s tone;
  oculto ← part o_s o_t;
  Ok (mkoracle data destino analogo antipoda guia oculto).

End Oracle.

(** ** The leap-day count in the words of the specification *)

#[global] Instance Z_divide_dec : RelDecision Z.divide.
Proof.
  intros a b.
  destruct ((b =? 0) || negb (a =? 0) && (b mod a =? 0)) eqn:E; [left|right];
    destruct (Z.BoolSpec_divide a b); congruence.
Defined.

(** The Gregorian rule: divisible by 4, and not divisible by 100 unless also
    divisible by 400. *)
Definition gregorian_leap (y : Z) : Prop :=
  (4 | y) /\ (~ (100 | y) \/ (400 | y)).

(** Calendar order of two dates: earlier year, or same year and earlier
    month, or same year and month and earlier day. *)
Definition date_lt (x y : date) : Prop :=
  year x < year y
  \/ (year x = year y
      /\ (month x < month y \/ (month x = month y /\ day x < day y))).

Definition date_le (x y : date) : Prop := date_lt x y \/ x = y.

(** Year [y] has a Feb 29 and it lies strictly after [lo] and at most at [hi]. *)
Definition leap_day_in (lo hi : date) (y : Z) : Prop :=
  gregorian_leap y
  /\ date_lt lo (mkdate y 2 29) /\ date_le (mkdate y 2 29) hi.

#[global] Instance date_eq_dec : EqDecision date.
Proof. solve_decision. Defined.

#[global] Instance leap_day_in_dec (lo hi : date) (y : Z) :
  Decision (leap_day_in lo hi y).
Proof. unfold leap_day_in, gregorian_leap, date_le, date_lt. apply _. Defined.

(** The Feb 29 days of all the years a date can have that lie in (lo, hi]. *)
Definition leap_days_between (lo hi : date) : Z :=
  Z.of_nat (length (filter (leap_day_in lo hi)
                           (seqZ MINYEAR (MAXYEAR - MINYEAR + 1)))).

(** The same count over the years the program scans, [lo.year .. hi.year]. *)
Definition leap_days_scanned (lo hi : date) : Z :=
  Z.of_nat (length (filter (leap_day_in lo hi)
                           (Py.range (year lo) (year hi + 1)))).

(** ** The color groups in the words of the specification *)

(** The seals of 1..20 that have the color of [seal], that is the same
    residue of (seal - 1) mod 4, in ascending order. *)
Definition color_group (seal : Z) : list Z :=
  filter (fun x => (x - 1) mod 4 = (seal - 1) mod 4) (seqZ 1 20).

(** ** Counting Feb 29 days from the start of the calendar *)

(** Year [y] has a Feb 29 and it lies at or before [d]. *)
Definition feb29_until (d : date) (y : Z) : Prop :=
  gregorian_leap y /\ date_le (mkdate y 2 29) d.

#[global] Instance feb29_until_dec (d : date) (y : Z) :
  Decision (feb29_until d y).
Proof. unfold feb29_until, gregorian_leap, date_le, date_lt. apply _. Defined.

(** The number of Feb 29 days at or before [d]. *)
Definition feb29_upto (d : date) : Z :=
  Z.of_nat (length (filter (feb29_until d)
                           (seqZ MINYEAR (MAXYEAR - MINYEAR + 1)))).

(** The date is a Feb 29. *)
Definition is_feb29 (d : date) : Prop := month d = 2 /\ day d = 29.

(** The day number of a date when Feb 29 days are not counted. *)
Definition leap_free_day (d : date) : Z := toordinal d - feb29_upto d.

(** Year [y] has a Feb 29 and it is the date [d]. *)
Definition feb29_at (d : date) (y : Z) : Prop :=
  gregorian_leap y /\ mkdate y 2 29 = d.

#[global] Instance feb29_at_dec (d : date) (y : Z) : Decision (feb29_at d y).
Proof. unfold feb29_at, gregorian_leap. apply _. Defined.

#[global] Instance is_feb29_dec (d : date) : Decision (is_feb29 d).
Proof. unfold is_feb29. apply _. Defined.

(** * Tactics *)

(** Case analysis on the tests [r == 0] of the rules, then linear
    arithmetic on the quotients and remainders. *)
Ltac rule_arith :=
  cbv zeta;
  repeat match goal with
         | |- context [Z.eqb ?a 0] => destruct (Z.eqb_spec a 0)
         end;
  Z.div_mod_to_equations; lia.

(** Splits a membership in an explicit list into its cases. *)
Ltac elem_cases H :=
  repeat (apply elem_of_cons in H; destruct H as [H|H]);
  [..| apply elem_of_nil in H; contradiction].

(** * Properties *)

(** ** Results, ranges and list reads *)

Lemma bind_Ok {A B : Type} (a : A) (k : A -> result B) : (Ok a ≫= k) = k a.
Proof. reflexivity. Qed.

Lemma elem_of_range (a b k : Z) : k ∈ Py.range a b <-> a <= k < b.
Proof. unfold Py.range. rewrite elem_of_seqZ. lia. Qed.

Lemma getitem_in_range {A : Type} (l : list A) (i : Z) :
  0 <= i < Z.of_nat (length l) ->
  exists x, Py.getitem l i = Ok x /\ l !! Z.to_nat i = Some x.
Proof.
  intros Hi. unfold Py.getitem.
  destruct (Z.ltb_spec i 0); [lia|].
  destruct (Z.leb_spec 0 i); [|lia].
  destruct (Z.ltb_spec i (Z.of_nat (length l))); [|lia]. simpl.
  destruct (lookup_lt_is_Some_2 l (Z.to_nat i)) as [x Hx]; [lia|].
  exists x. rewrite Hx. split; reflexivity.
Qed.

Lemma filter_none {A : Type} (P : A -> Prop) `{forall x, Decision (P x)}
    (l : list A) :
  (forall x, x ∈ l -> ~ P x) -> filter P l = [].
Proof.
  induction l as [|x l IH]; intros Hl; [reflexivity|].
  rewrite filter_cons_False by (apply Hl; left).
  apply IH. intros y Hy. apply Hl. right. exact Hy.
Qed.

Lemma residue4_cases (x : Z) :
  x mod 4 = 0 \/ x mod 4 = 1 \/ x mod 4 = 2 \/ x mod 4 = 3.
Proof. pose proof (Z.mod_pos_bound x 4 ltac:(lia)). lia. Qed.

(** ** Dates: comparison and construction *)

Lemma cmp_opp (x y : date) : datetime.cmp y x = CompOpp (datetime.cmp x y).
Proof.
  unfold datetime.cmp.
  rewrite (Z.compare_antisym (year x)), (Z.compare_antisym (month x)),
    (Z.compare_antisym (day x)).
  destruct (year x ?= year y), (month x ?= month y), (day x ?= day y);
    reflexivity.
Qed.

Lemma cmp_eq (x y : date) : datetime.cmp x y = Eq <-> x = y.
Proof.
  unfold datetime.cmp. destruct x as [a b c], y as [a' b' c']; simpl.
  destruct (Z.compare_spec a a') as [Ea|Ea|Ea],
    (Z.compare_spec b b') as [Eb|Eb|Eb],
    (Z.compare_spec c c') as [Ec|Ec|Ec]; split; intros E; try discriminate;
    try (inversion E; lia); subst; reflexivity.
Qed.

Lemma cmp_lt (x y : date) : datetime.cmp x y = Lt <-> date_lt x y.
Proof.
  unfold datetime.cmp, date_lt.
  destruct (Z.compare_spec (year x) (year y)) as [Ey|Ey|Ey],
    (Z.compare_spec (month x) (month y)) as [Em|Em|Em],
    (Z.compare_spec (day x) (day y)) as [Ed|Ed|Ed]; split; intros E;
    try discriminate; try reflexivity; lia.
Qed.

Lemma ltb_lt (x y : date) : datetime.ltb x y = true <-> date_lt x y.
Proof.
  rewrite <- cmp_lt. unfold datetime.ltb.
  destruct (datetime.cmp x y); split; congruence.
Qed.

Lemma gtb_lt (x y : date) : datetime.gtb x y = true <-> date_lt y x.
Proof.
  rewrite <- cmp_lt, cmp_opp. unfold datetime.gtb.
  destruct (datetime.cmp x y); split; simpl; congruence.
Qed.

Lemma leb_le (x y : date) : datetime.leb x y = true <-> date_le x y.
Proof.
  unfold date_le. rewrite <- cmp_lt, <- cmp_eq. unfold datetime.leb.
  destruct (datetime.cmp x y); intuition congruence.
Qed.

Lemma valid_year (x : date) :
  datetime.valid x -> MINYEAR <= year x <= MAXYEAR.
Proof.
  unfold datetime.valid, check_date_fields.
  rewrite !andb_true_iff, !Z.leb_le. lia.
Qed.

Lemma valid_fields (x : date) :
  datetime.valid x ->
  1 <= month x <= 12 /\ 1 <= day x <= _days_in_month (year x) (month x).
Proof.
  unfold datetime.valid, check_date_fields.
  rewrite !andb_true_iff, !Z.leb_le. lia.
Qed.

Lemma is_leap_gregorian (y : Z) : _is_leap y = true <-> gregorian_leap y.
Proof.
  unfold _is_leap, gregorian_leap.
  rewrite <- !Z.mod_divide by lia.
  destruct (Z.eqb_spec (y mod 4) 0), (Z.eqb_spec (y mod 100) 0),
    (Z.eqb_spec (y mod 400) 0); simpl; intuition discriminate.
Qed.

(** In a leap year of the supported range, [date(y, 2, 29)] does not raise. *)
Lemma new_feb29 (y : Z) :
  MINYEAR <= y <= MAXYEAR -> _is_leap y = true ->
  datetime.new y 2 29 = Ok (mkdate y 2 29).
Proof.
  intros Hy Hl. unfold datetime.new, check_date_fields, _days_in_month.
  change (is_leap_year y) with (_is_leap y). rewrite Hl. simpl.
  unfold MINYEAR, MAXYEAR in *.
  destruct (Z.leb_spec 1 y), (Z.leb_spec y 9999); simpl; try lia. reflexivity.
Qed.

(** The years with a Feb 29: the constructor accepts [date(y, 2, 29)]
    exactly for the leap years of the supported range. *)
Lemma feb29_valid_iff (y : Z) :
  datetime.valid (mkdate y 2 29)
  <-> MINYEAR <= y <= MAXYEAR /\ gregorian_leap y.
Proof.
  rewrite <- is_leap_gregorian.
  unfold datetime.valid, check_date_fields, _days_in_month. simpl.
  change (is_leap_year y) with (_is_leap y).
  rewrite !andb_true_iff, !Z.leb_le.
  destruct (_is_leap y); simpl; intuition (try lia; try discriminate).
Qed.

Lemma anchor_valid : datetime.valid ANCHOR_DATE.
Proof. reflexivity. Qed.

(** ** Calendar order and day counts

    The comparison of dates that the program uses agrees with the day count
    that its subtraction uses: an earlier valid date has a smaller ordinal. *)

Lemma days_before_year_succ (y : Z) :
  _days_before_year (y + 1)
  = _days_before_year y + 365 + (if is_leap_year y then 1 else 0).
Proof.
  unfold _days_before_year, is_leap_year. cbv zeta.
  replace (y + 1 - 1) with y by lia.
  destruct (Z.eqb_spec (y mod 4) 0), (Z.eqb_spec (y mod 100) 0),
    (Z.eqb_spec (y mod 400) 0); simpl; Z.div_mod_to_equations; lia.
Qed.

Lemma days_before_year_add (a : Z) (n : nat) :
  _days_before_year a + 365 * Z.of_nat n <= _days_before_year (a + Z.of_nat n).
Proof.
  induction n as [|n IH].
  - change (Z.of_nat 0) with 0. replace (a + 0) with a by lia. lia.
  - rewrite Nat2Z.inj_succ.
    replace (a + Z.succ (Z.of_nat n)) with (a + Z.of_nat n + 1) by lia.
    rewrite days_before_year_succ.
    destruct (is_leap_year (a + Z.of_nat n)); lia.
Qed.

Lemma days_before_year_mono (a b : Z) :
  a <= b -> _days_before_year a + 365 * (b - a) <= _days_before_year b.
Proof.
  intros Hab. pose proof (days_before_year_add a (Z.to_nat (b - a))) as H.
  replace (a + Z.of_nat (Z.to_nat (b - a))) with b in H by lia. lia.
Qed.

Lemma days_before_month_next (y m m' : Z) :
  1 <= m -> m < m' -> m' <= 12 ->
  _days_before_month y m + _days_in_month y m <= _days_before_month y m'.
Proof.
  intros H1 Hlt H12.
  assert (m ∈ seqZ 1 12) as Hm by (apply elem_of_seqZ; lia).
  assert (m' ∈ seqZ 1 12) as Hm' by (apply elem_of_seqZ; lia).
  vm_compute seqZ in Hm, Hm'.
  unfold _days_before_month, _days_in_month.
  destruct (is_leap_year y);
    elem_cases Hm; subst m; elem_cases Hm'; subst m'; try lia;
    vm_compute; discriminate.
Qed.

(** The day of the year of a valid date is in 1..365, or 1..366 in a leap
    year. *)
Lemma day_of_year_bound (x : date) :
  datetime.valid x ->
  1 <= _days_before_month (year x) (month x) + day x
    <= 365 + (if is_leap_year (year x) then 1 else 0).
Proof.
  intros (Hm & Hd)%valid_fields.
  assert (month x ∈ seqZ 1 12) as Hin by (apply elem_of_seqZ; lia).
  vm_compute seqZ in Hin. revert Hd.
  unfold _days_before_month, _days_in_month.
  destruct (is_leap_year (year x));
    elem_cases Hin; rewrite Hin; simpl; lia.
Qed.

Lemma toordinal_lt (x y : date) :
  datetime.valid x -> datetime.valid y ->
  date_lt x y -> toordinal x < toordinal y.
Proof.
  intros Hx Hy Hlt. unfold toordinal, _ymd2ord.
  pose proof (day_of_year_bound x Hx) as Bx.
  pose proof (day_of_year_bound y Hy) as By.
  destruct (valid_fields x Hx) as [Mx Dx].
  destruct (valid_fields y Hy) as [My Dy].
  destruct Hlt as [Hyear | [Eyear [Hmonth | [Emonth Hday]]]].
  - pose proof (days_before_year_succ (year x)) as Hs.
    pose proof (days_before_year_mono (year x + 1) (year y) ltac:(lia)). lia.
  - rewrite <- Eyear in *.
    pose proof (days_before_month_next (year x) (month x) (month y)
                  ltac:(lia) Hmonth ltac:(lia)). lia.
  - rewrite <- Eyear, <- Emonth. lia.
Qed.

(** The day difference of two valid dates has the sign of their order. *)
Lemma sub_days_sign (x y : date) :
  datetime.valid x -> datetime.valid y ->
  match datetime.cmp x y with
  | Lt => datetime.sub_days x y < 0
  | Eq => datetime.sub_days x y = 0
  | Gt => 0 < datetime.sub_days x y
  end.
Proof.
  intros Hx Hy. unfold datetime.sub_days.
  destruct (datetime.cmp x y) eqn:E.
  - apply cmp_eq in E. subst. lia.
  - apply cmp_lt in E. pose proof (toordinal_lt x y Hx Hy E). lia.
  - assert (datetime.cmp y x = Lt) as E' by (rewrite cmp_opp, E; reflexivity).
    apply cmp_lt in E'. pose proof (toordinal_lt y x Hy Hx E'). lia.
Qed.

(** ** The leap adjustment *)

(** One iteration of the loop adds one exactly for a counted year. *)
Lemma count_feb29_step (mn mx : date) (count y : Z) :
  MINYEAR <= y <= MAXYEAR ->
  count_feb29 mn mx count y
  = Ok (if decide (leap_day_in mn mx y) then count + 1 else count).
Proof.
  intros Hy. unfold count_feb29, leap_day_in.
  destruct (_is_leap y) eqn:Hl.
  - rewrite (new_feb29 y Hy Hl). simpl.
    apply is_leap_gregorian in Hl.
    destruct (datetime.gtb (mkdate y 2 29) mn) eqn:Hg;
      destruct (datetime.leb (mkdate y 2 29) mx) eqn:Hle; simpl;
      [apply gtb_lt in Hg; apply leb_le in Hle; rewrite decide_True by tauto
      | rewrite decide_False; [|rewrite <- leb_le; intros (_ & _ & ?); congruence]
      | rewrite decide_False; [|rewrite <- gtb_lt; intros (_ & ? & _); congruence]
      | rewrite decide_False; [|rewrite <- gtb_lt; intros (_ & ? & _); congruence]];
      reflexivity.
  - rewrite decide_False; [reflexivity|].
    rewrite <- is_leap_gregorian. intros [? _]. congruence.
Qed.

(** The loop returns the number of counted years among those it scans. *)
Lemma for_each_count_feb29 (mn mx : date) (ys : list Z) (count : Z) :
  Forall (fun y => MINYEAR <= y <= MAXYEAR) ys ->
  Py.for_each (count_feb29 mn mx) ys count
  = Ok (count + Z.of_nat (length (filter (leap_day_in mn mx) ys))).
Proof.
  intros Hys. revert count.
  induction Hys as [|y ys Hy Hys IH]; intros count; simpl.
  - f_equal. lia.
  - rewrite (count_feb29_step mn mx count y Hy). simpl.
    rewrite IH, filter_cons. destruct (decide (leap_day_in mn mx y)); simpl;
      f_equal; lia.
Qed.

Lemma range_years_valid (lo hi : date) :
  datetime.valid lo -> datetime.valid hi ->
  Forall (fun y => MINYEAR <= y <= MAXYEAR) (Py.range (year lo) (year hi + 1)).
Proof.
  intros Hlo%valid_year Hhi%valid_year.
  apply Forall_forall. intros y Hy%elem_of_range. lia.
Qed.

(** The adjustment, by the order of its two dates. *)
Lemma hunab_ku_adjust_cases (anchor target : date) :
  datetime.valid anchor -> datetime.valid target ->
  _hunab_ku_adjust anchor target
  = Ok match datetime.cmp anchor target with
       | Eq => 0
       | Lt => - leap_days_scanned anchor target
       | Gt => leap_days_scanned target anchor
       end.
Proof.
  intros Ha Ht.
  unfold _hunab_ku_adjust, datetime.eqb, datetime.ltb, datetime.gtb.
  rewrite (cmp_opp anchor target).
  destruct (datetime.cmp anchor target); simpl.
  - reflexivity.
  - rewrite for_each_count_feb29 by (apply range_years_valid; assumption).
    simpl. reflexivity.
  - rewrite for_each_count_feb29 by (apply range_years_valid; assumption).
    simpl. reflexivity.
Qed.

(** A counted year lies between the years of the two dates. *)
Lemma leap_day_in_years (lo hi : date) (y : Z) :
  leap_day_in lo hi y -> year lo <= y <= year hi.
Proof.
  unfold leap_day_in, date_le, date_lt. simpl.
  intros (_ & Hlo & [Hhi | <-]); simpl; lia.
Qed.

(** Scanning only the years lo.year .. hi.year misses no Feb 29 of (lo, hi]. *)
Lemma leap_days_scanned_all (lo hi : date) :
  datetime.valid lo -> datetime.valid hi ->
  leap_days_scanned lo hi = leap_days_between lo hi.
Proof.
  intros Hlo%valid_year Hhi%valid_year.
  unfold leap_days_scanned, leap_days_between, Py.range, MINYEAR, MAXYEAR in *.
  do 2 f_equal.
  destruct (Z_le_gt_dec (year lo) (year hi)) as [Hle|Hgt].
  - replace (9999 - 1 + 1)
      with ((year lo - 1) + ((year hi + 1 - year lo) + (9999 - year hi)))
      by lia.
    rewrite seqZ_app, seqZ_app by lia.
    rewrite !filter_app.
    rewrite (filter_none _ (seqZ 1 _)), (filter_none _ (seqZ (_ + _ + _) _)).
    + rewrite app_nil_r. simpl. do 2 f_equal. lia.
    + intros y Hy%elem_of_seqZ Hin%leap_day_in_years. lia.
    + intros y Hy%elem_of_seqZ Hin%leap_day_in_years. lia.
  - rewrite !filter_none; [reflexivity|..];
      intros y _ Hin%leap_day_in_years; lia.
Qed.

(** C5: for valid dates the adjustment is the number of Feb 29 days
    (Gregorian leap rule) strictly after the earlier date and at most the
    later date: negated when target > anchor, unsigned when target < anchor,
    and 0 when the dates are equal. *)
Theorem hunab_ku_adjust_leap_days (anchor target : date) :
  datetime.valid anchor -> datetime.valid target ->
  (date_lt anchor target ->
     _hunab_ku_adjust anchor target = Ok (- leap_days_between anchor target))
  /\ (date_lt target anchor ->
     _hunab_ku_adjust anchor target = Ok (leap_days_between target anchor))
  /\ (target = anchor -> _hunab_ku_adjust anchor target = Ok 0).
Proof.
  intros Ha Ht. rewrite (hunab_ku_adjust_cases anchor target Ha Ht).
  repeat split.
  - intros Hlt%cmp_lt. rewrite Hlt, leap_days_scanned_all by assumption.
    reflexivity.
  - intros Hlt%cmp_lt. rewrite cmp_opp, Hlt. simpl.
    rewrite leap_days_scanned_all by assumption. reflexivity.
  - intros ->. rewrite (proj2 (cmp_eq anchor anchor) eq_refl). reflexivity.
Qed.

Lemma hunab_ku_adjust_leap_days_witness :
  datetime.valid ANCHOR_DATE /\ datetime.valid (mkdate 2020 3 1)
  /\ date_lt ANCHOR_DATE (mkdate 2020 3 1)
  /\ _hunab_ku_adjust ANCHOR_DATE (mkdate 2020 3 1)
     = Ok (- leap_days_between ANCHOR_DATE (mkdate 2020 3 1)).
Proof.
  assert (Hlt : date_lt ANCHOR_DATE (mkdate 2020 3 1)) by (left; simpl; lia).
  split; [reflexivity|]. split; [reflexivity|]. split; [exact Hlt|].
  exact (proj1 (hunab_ku_adjust_leap_days ANCHOR_DATE (mkdate 2020 3 1)
                  eq_refl eq_refl) Hlt).
Defined.

(** C7: for two different valid dates the adjustment changes sign when its
    arguments are exchanged. *)
Theorem hunab_ku_adjust_antisym (a b : date) :
  datetime.valid a -> datetime.valid b -> a <> b ->
  exists n, _hunab_ku_adjust a b = Ok n /\ _hunab_ku_adjust b a = Ok (- n).
Proof.
  intros Ha Hb Hne.
  rewrite (hunab_ku_adjust_cases a b Ha Hb), (hunab_ku_adjust_cases b a Hb Ha).
  rewrite (cmp_opp a b).
  destruct (datetime.cmp a b) eqn:E; simpl.
  - apply cmp_eq in E. contradiction.
  - eexists. split; [reflexivity|]. f_equal. lia.
  - eexists. split; reflexivity.
Qed.

Lemma hunab_ku_adjust_antisym_witness :
  exists n, _hunab_ku_adjust (mkdate 2016 2 29) (mkdate 2011 6 1) = Ok n
            /\ _hunab_ku_adjust (mkdate 2011 6 1) (mkdate 2016 2 29) = Ok (- n).
Proof.
  apply (hunab_ku_adjust_antisym (mkdate 2016 2 29) (mkdate 2011 6 1));
    [reflexivity | reflexivity | discriminate].
Defined.

(** ** The forward mapping *)

(** C2: the forward mapping applied to the anchor date gives Kin 206, tone
    11, seal 6 and color Branco, and seal number 6 (read as the program reads
    the seal table, at index 6 - 1) is named "Enlaçador de Mundos". *)
Theorem kin_from_date_anchor :
  kin_from_date ANCHOR_DATE = Ok (206, 11, 6, "Branco"%string)
  /\ Py.getitem SEALS (6 - 1) = Ok "Enlaçador de Mundos"%string.
Proof. split; vm_compute; reflexivity. Qed.

(** The forward mapping returns for every valid date: the Kin is the
    1-based residue modulo 260 of some day count, tone and seal are its
    residues, and the color is read from the color table. *)
Lemma kin_from_date_shape (d : date) :
  datetime.valid d ->
  exists delta c,
    let k := (delta + (ANCHOR_KIN - 1)) mod 260 + 1 in
    let s := (k - 1) mod 20 + 1 in
    kin_from_date d = Ok (k, (k - 1) mod 13 + 1, s, c)
    /\ COLORS !! Z.to_nat ((s - 1) mod 4) = Some c.
Proof.
  intros Hd. unfold kin_from_date.
  rewrite (hunab_ku_adjust_cases ANCHOR_DATE d anchor_valid Hd), bind_Ok.
  cbv zeta.
  set (delta := datetime.sub_days d ANCHOR_DATE + _).
  set (k := (delta + (ANCHOR_KIN - 1)) mod 260 + 1).
  set (s := (k - 1) mod 20 + 1).
  destruct (getitem_in_range COLORS ((s - 1) mod 4)) as (c & Hc & Hlook).
  { change (Z.of_nat (length COLORS)) with 4. apply Z.mod_pos_bound. lia. }
  rewrite Hc, bind_Ok.
  exists delta, c. split; [reflexivity | exact Hlook].
Qed.

(** C6: for every valid date, before or after the anchor, [kin_from_date]
    returns a Kin in 1..260, a tone in 1..13, a seal in 1..20 and the color
    that the color table holds at (seal - 1) mod 4.  Being a function of the
    date alone, the result is determined by it. *)
Theorem kin_from_date_ranges (d : date) :
  datetime.valid d ->
  exists k t s c,
    kin_from_date d = Ok (k, t, s, c)
    /\ 1 <= k <= 260 /\ 1 <= t <= 13 /\ 1 <= s <= 20
    /\ COLORS !! Z.to_nat ((s - 1) mod 4) = Some c.
Proof.
  intros Hd.
  destruct (kin_from_date_shape d Hd) as (delta & c & Hk & Hc).
  cbv zeta in Hk, Hc.
  set (k := (delta + (ANCHOR_KIN - 1)) mod 260 + 1) in *.
  exists k, ((k - 1) mod 13 + 1), ((k - 1) mod 20 + 1), c.
  split; [exact Hk|].
  pose proof (Z.mod_pos_bound (delta + (ANCHOR_KIN - 1)) 260 ltac:(lia)).
  pose proof (Z.mod_pos_bound (k - 1) 13 ltac:(lia)).
  pose proof (Z.mod_pos_bound (k - 1) 20 ltac:(lia)).
  repeat split; try (subst k; lia). exact Hc.
Qed.

Lemma kin_from_date_ranges_witness :
  datetime.valid (mkdate 1999 12 31)
  /\ datetime.sub_days (mkdate 1999 12 31) ANCHOR_DATE < 0
  /\ exists k t s c,
       kin_from_date (mkdate 1999 12 31) = Ok (k, t, s, c)
       /\ 1 <= k <= 260 /\ 1 <= t <= 13 /\ 1 <= s <= 20
       /\ COLORS !! Z.to_nat ((s - 1) mod 4) = Some c.
Proof.
  split; [reflexivity|]. split; [reflexivity|].
  apply (kin_from_date_ranges (mkdate 1999 12 31)). reflexivity.
Defined.

(** ** The inverse mapping *)

(** Two Kins of 1..260 with the same seal and the same tone are equal:
    their difference is a multiple of 20 and of 13 below 260. *)
Lemma kin_residues_inj (k k' : Z) :
  1 <= k <= 260 -> 1 <= k' <= 260 ->
  (k' - 1) mod 20 + 1 = (k - 1) mod 20 + 1 ->
  (k' - 1) mod 13 + 1 = (k - 1) mod 13 + 1 ->
  k' = k.
Proof.
  intros Hk Hk' Hs Ht.
  pose proof (Z.div_mod (k - 1) 20 ltac:(lia)) as E1.
  pose proof (Z.div_mod (k' - 1) 20 ltac:(lia)) as E2.
  pose proof (Z.div_mod (k - 1) 13 ltac:(lia)) as E3.
  pose proof (Z.div_mod (k' - 1) 13 ltac:(lia)) as E4.
  pose proof (Z.mod_pos_bound (k - 1) 20 ltac:(lia)).
  pose proof (Z.mod_pos_bound (k - 1) 13 ltac:(lia)).
  lia.
Qed.

(** The search returns the one value of the list that has both residues. *)
Lemma kin_search_unique (seal tone k : Z) (ks : list Z) :
  k ∈ ks -> (k - 1) mod 20 + 1 = seal -> (k - 1) mod 13 + 1 = tone ->
  (forall k', k' ∈ ks ->
     (k' - 1) mod 20 + 1 = seal -> (k' - 1) mod 13 + 1 = tone -> k' = k) ->
  kin_search seal tone ks = Ok k.
Proof.
  intros Hin Hs Ht.
  induction ks as [|x ks IH]; intros Huniq.
  - inversion Hin.
  - simpl.
    destruct (Z.eqb_spec ((x - 1) mod 20 + 1) seal) as [Es|Es];
      destruct (Z.eqb_spec ((x - 1) mod 13 + 1) tone) as [Et|Et]; simpl.
    + f_equal. apply Huniq; [left | |]; assumption.
    + apply IH; [|intros; apply Huniq; [right|..]; assumption].
      inversion Hin; subst; [contradiction | assumption].
    + apply IH; [|intros; apply Huniq; [right|..]; assumption].
      inversion Hin; subst; [contradiction | assumption].
    + apply IH; [|intros; apply Huniq; [right|..]; assumption].
      inversion Hin; subst; [contradiction | assumption].
Qed.

(** A result of the search has both residues and comes from the list. *)
Lemma kin_search_sound (seal tone k : Z) (ks : list Z) :
  kin_search seal tone ks = Ok k ->
  k ∈ ks /\ (k - 1) mod 20 + 1 = seal /\ (k - 1) mod 13 + 1 = tone.
Proof.
  induction ks as [|x ks IH]; simpl; [discriminate|].
  destruct (Z.eqb_spec ((x - 1) mod 20 + 1) seal) as [Es|Es];
    destruct (Z.eqb_spec ((x - 1) mod 13 + 1) tone) as [Et|Et]; simpl;
    intros H; try (destruct (IH H) as (? & ? & ?); split; [right|]; tauto).
  inversion H; subst. split; [left|]; tauto.
Qed.

(** C3: for every Kin of 1..260 the inverse search applied to its seal and
    tone returns that Kin, and no other Kin of 1..260 has the same seal and
    tone. *)
Theorem kin_from_seal_tone_roundtrip (kin : Z) :
  1 <= kin <= 260 ->
  kin_from_seal_tone ((kin - 1) mod 20 + 1) ((kin - 1) mod 13 + 1) = Ok kin
  /\ (forall k, 1 <= k <= 260 ->
        (k - 1) mod 20 + 1 = (kin - 1) mod 20 + 1 ->
        (k - 1) mod 13 + 1 = (kin - 1) mod 13 + 1 ->
        k = kin).
Proof.
  intros Hk. split.
  - apply kin_search_unique; [apply elem_of_range; lia | reflexivity..|].
    intros k' Hin%elem_of_range. apply kin_residues_inj; lia.
  - intros k' Hk'. apply kin_residues_inj; lia.
Qed.

Lemma kin_from_seal_tone_roundtrip_witness :
  kin_from_seal_tone ((206 - 1) mod 20 + 1) ((206 - 1) mod 13 + 1) = Ok 206
  /\ (forall k, 1 <= k <= 260 ->
        (k - 1) mod 20 + 1 = (206 - 1) mod 20 + 1 ->
        (k - 1) mod 13 + 1 = (206 - 1) mod 13 + 1 ->
        k = 206).
Proof. apply (kin_from_seal_tone_roundtrip 206). lia. Defined.

(** The inverse search succeeds on every seal of 1..20 and tone of 1..13,
    with the Kin that the Chinese remainder formula gives (221 is 1 modulo
    20 and 0 modulo 13, 40 is 0 modulo 20 and 1 modulo 13). *)
Lemma kin_from_seal_tone_crt (seal tone : Z) :
  1 <= seal <= 20 -> 1 <= tone <= 13 ->
  kin_from_seal_tone seal tone
  = Ok ((221 * (seal - 1) + 40 * (tone - 1)) mod 260 + 1).
Proof.
  intros Hs Ht.
  set (x := (221 * (seal - 1) + 40 * (tone - 1)) mod 260).
  assert (0 <= x < 260) as Hx by (apply Z.mod_pos_bound; lia).
  assert (x mod 20 = seal - 1 /\ x mod 13 = tone - 1) as [E20 E13].
  { subst x. split; Z.div_mod_to_equations; lia. }
  apply kin_search_unique.
  - apply elem_of_range. lia.
  - replace (x + 1 - 1) with x by lia. lia.
  - replace (x + 1 - 1) with x by lia. lia.
  - intros k' Hk'%elem_of_range Hs' Ht'.
    apply kin_residues_inj; [lia | lia | |];
      replace (x + 1 - 1) with x by lia; lia.
Qed.

(** ** The Analog, Antipode and Occult rules *)

(** On 1..20 the Occult seal is the seal that sums with the source to 21. *)
Lemma occult_seal_sum (s : Z) : 1 <= s <= 20 -> occult_seal s = 21 - s.
Proof. intros Hs. unfold occult_seal. rule_arith. Qed.

(** On 1..13 the Occult tone is 14 minus the tone. *)
Lemma occult_tone_sum (t : Z) : 1 <= t <= 13 -> occult_tone t = 14 - t.
Proof. intros Ht. unfold occult_tone. rule_arith. Qed.

(** On 1..18 the Analog seal sums with the source to 19; 19 and 20 are
    exchanged. *)
Lemma analog_seal_sum (s : Z) :
  1 <= s <= 20 ->
  analog_seal s = if s =? 19 then 20 else if s =? 20 then 19 else 19 - s.
Proof.
  intros Hs. unfold analog_seal.
  destruct (Z.eqb_spec s 19); [subst; reflexivity|].
  destruct (Z.eqb_spec s 20); [subst; reflexivity|].
  rule_arith.
Qed.

(** The three seal rules and the tone rule stay in their cycles, whatever
    the integer they are given. *)
Lemma analog_seal_range (s : Z) : 1 <= analog_seal s <= 20.
Proof. unfold analog_seal. rule_arith. Qed.

Lemma antipode_seal_range (s : Z) : 1 <= antipode_seal s <= 20.
Proof. unfold antipode_seal. rule_arith. Qed.

Lemma occult_seal_range (s : Z) : 1 <= occult_seal s <= 20.
Proof. unfold occult_seal. rule_arith. Qed.

Lemma occult_tone_range (t : Z) : 1 <= occult_tone t <= 13.
Proof. unfold occult_tone. rule_arith. Qed.

(** C8: the Occult seal rule is an involution on 1..20 and the Occult tone
    rule is an involution on 1..13. *)
Theorem occult_involution :
  (forall s, 1 <= s <= 20 -> occult_seal (occult_seal s) = s)
  /\ (forall t, 1 <= t <= 13 -> occult_tone (occult_tone t) = t).
Proof.
  split.
  - intros s Hs. rewrite (occult_seal_sum s Hs), occult_seal_sum; lia.
  - intros t Ht. rewrite (occult_tone_sum t Ht), occult_tone_sum; lia.
Qed.

Lemma occult_involution_witness :
  occult_seal (occult_seal 20) = 20 /\ occult_tone (occult_tone 13) = 13.
Proof.
  split.
  - apply (proj1 occult_involution 20). lia.
  - apply (proj2 occult_involution 13). lia.
Defined.

(** C9: the Analog seal rule is an involution on 1..20, and its result is in
    1..20 for every integer argument. *)
Theorem analog_involution :
  (forall s, 1 <= s <= 20 -> analog_seal (analog_seal s) = s)
  /\ (forall s, 1 <= analog_seal s <= 20).
Proof.
  split; [|exact analog_seal_range].
  intros s Hs. rewrite (analog_seal_sum s Hs).
  destruct (Z.eqb_spec s 19); [subst; reflexivity|].
  destruct (Z.eqb_spec s 20); [subst; reflexivity|].
  rewrite analog_seal_sum by lia.
  destruct (Z.eqb_spec (19 - s) 19); [lia|].
  destruct (Z.eqb_spec (19 - s) 20); lia.
Qed.

Lemma analog_involution_witness :
  analog_seal (analog_seal 19) = 19 /\ 1 <= analog_seal (-7) <= 20.
Proof.
  split.
  - apply (proj1 analog_involution 19). lia.
  - apply (proj2 analog_involution (-7)).
Defined.

(** ** The Guide rule *)

(** The tones 1, 6 and 11 guide themselves. *)
Lemma guide_seal_self (seal tone : Z) :
  tone = 1 \/ tone = 6 \/ tone = 11 -> guide_seal seal tone = Ok seal.
Proof. intros [-> | [-> | ->]]; reflexivity. Qed.

(** For a tone with an index [i] in the table, the Guide is the member
    number [i] of the group of the seal's color: the seal of residue
    (seal - 1) mod 4 that is [i] steps of 4 above the first of its color. *)
Lemma guide_seal_member (seal tone i : Z) :
  GUIDE_INDEX_BY_TONE !! tone = Some (Some i) ->
  0 <= i <= 4 /\ guide_seal seal tone = Ok ((seal - 1) mod 4 + 1 + 4 * i).
Proof.
  intros Hi. apply elem_of_list_to_map_2 in Hi.
  unfold guide_seal.
  elem_cases Hi; inversion Hi; subst; (split; [lia|]); simpl;
    destruct (residue4_cases (seal - 1)) as [E|[E|[E|E]]]; rewrite E;
    vm_compute; reflexivity.
Qed.

(** Every tone of 1..13 is self-guided or has an index in the table. *)
Lemma guide_index_cases (tone : Z) :
  1 <= tone <= 13 ->
  (tone = 1 \/ tone = 6 \/ tone = 11)
  \/ exists i, GUIDE_INDEX_BY_TONE !! tone = Some (Some i).
Proof.
  intros Ht.
  assert (tone ∈ seqZ 1 13) as Hin by (apply elem_of_seqZ; lia).
  vm_compute seqZ in Hin.
  elem_cases Hin; subst; try (left; lia); right; eexists; vm_compute;
    reflexivity.
Qed.

(** The members of the group of a seal's color, by position. *)
Lemma color_group_lookup (seal i : Z) :
  0 <= i <= 4 ->
  color_group seal !! Z.to_nat i = Some ((seal - 1) mod 4 + 1 + 4 * i).
Proof.
  intros Hi. unfold color_group.
  assert (i ∈ seqZ 0 5) as Hin by (apply elem_of_seqZ; lia).
  vm_compute seqZ in Hin.
  destruct (residue4_cases (seal - 1)) as [E|[E|[E|E]]]; rewrite E;
    elem_cases Hin; subst; vm_compute; reflexivity.
Qed.

(** The group that the program's table holds for the color of a seal is the
    list of the seals of that color. *)
Lemma COLOR_GROUPS_color_group (seal : Z) :
  exists color, Py.getitem COLORS ((seal - 1) mod 4) = Ok color
                /\ COLOR_GROUPS !! color = Some (color_group seal).
Proof.
  unfold color_group.
  destruct (residue4_cases (seal - 1)) as [E|[E|[E|E]]]; rewrite E;
    eexists; split; vm_compute; reflexivity.
Qed.

(** C1, as the code has it: for every source seal in 1..20 and every tone
    of {2,3,4,5,7,8,9,10,12,13}, the Guide seal is the member of the source
    seal's color group at the 0-based index that the table
    {4,3,2,3,2,1,0,2,1,3} gives for the tone. *)
Theorem guide_seal_table (seal tone idx : Z) :
  1 <= seal <= 20 ->
  (tone, idx) ∈ zip [2; 3; 4; 5; 7; 8; 9; 10; 12; 13]
                    [4; 3; 2; 3; 2; 1; 0; 2; 1; 3] ->
  exists g, color_group seal !! Z.to_nat idx = Some g
            /\ guide_seal seal tone = Ok g.
Proof.
  intros _ Hin.
  assert (GUIDE_INDEX_BY_TONE !! tone = Some (Some idx)) as Hidx.
  { simpl in Hin. elem_cases Hin; inversion Hin; subst; vm_compute;
      reflexivity. }
  destruct (guide_seal_member seal tone idx Hidx) as [Hi Hg].
  eexists. split; [apply color_group_lookup; exact Hi | exact Hg].
Qed.

Lemma guide_seal_table_witness :
  exists g, color_group 6 !! Z.to_nat 0 = Some g /\ guide_seal 6 9 = Ok g.
Proof.
  apply (guide_seal_table 6 9 0); [lia|].
  simpl. do 6 right. left.
Defined.

(** C1 as the specification words it fails: with the indices
    {3,2,1,2,1,0,4,1,0,2}, seal 1 and tone 2 would be guided by member 3 of
    the red group, seal 13, and the code returns member 4, seal 17. *)
Lemma guide_seal_spec_table_fails :
  ~ (forall seal tone idx : Z,
       1 <= seal <= 20 ->
       (tone, idx) ∈ zip [2; 3; 4; 5; 7; 8; 9; 10; 12; 13]
                         [3; 2; 1; 2; 1; 0; 4; 1; 0; 2] ->
       exists g, color_group seal !! Z.to_nat idx = Some g
                 /\ guide_seal seal tone = Ok g).
Proof.
  intros H.
  destruct (H 1 2 3) as (g & Hg & Hguide); [lia | left |].
  vm_compute in Hg, Hguide. congruence.
Qed.

(** The Guide of a seal and a tone of 1..13 exists, has the residue of the
    source seal modulo 4, and is in 1..20 when the source is. *)
Lemma guide_seal_total (seal tone : Z) :
  1 <= tone <= 13 ->
  exists g, guide_seal seal tone = Ok g
            /\ (g - 1) mod 4 = (seal - 1) mod 4
            /\ (1 <= seal <= 20 -> 1 <= g <= 20).
Proof.
  intros Ht. destruct (guide_index_cases tone Ht) as [Hself | [i Hi]].
  - exists seal. split; [apply guide_seal_self; exact Hself|]. split; tauto.
  - destruct (guide_seal_member seal tone i Hi) as [Hr Hg].
    eexists. split; [exact Hg|].
    pose proof (Z.mod_pos_bound (seal - 1) 4 ltac:(lia)).
    split; [|lia].
    replace ((seal - 1) mod 4 + 1 + 4 * i - 1) with ((seal - 1) mod 4 + i * 4)
      by lia.
    rewrite Z.mod_add by lia. apply Z.mod_mod. lia.
Qed.

(** C10: for every seal in 1..20 and tone in 1..13 the Guide seal has the
    color of the source seal: the same residue of (seal - 1) modulo 4. *)
Theorem guide_seal_same_color (seal tone : Z) :
  1 <= seal <= 20 -> 1 <= tone <= 13 ->
  exists g, guide_seal seal tone = Ok g
            /\ (g - 1) mod 4 = (seal - 1) mod 4.
Proof.
  intros _ Ht. destruct (guide_seal_total seal tone Ht) as (g & Hg & Hc & _).
  exists g. split; assumption.
Qed.

Lemma guide_seal_same_color_witness :
  exists g, guide_seal 7 12 = Ok g /\ (g - 1) mod 4 = (7 - 1) mod 4.
Proof. apply (guide_seal_same_color 7 12); lia. Defined.

(** ** The oracle record *)

(** A part is built for every seal of 1..20 and tone of 1..13. *)
Lemma part_ok (seal tone : Z) :
  1 <= seal <= 20 -> 1 <= tone <= 13 ->
  exists p, part seal tone = Ok p
            /\ selo_num p = seal /\ tom_num p = tone
            /\ kin_from_seal_tone seal tone = Ok (kin p).
Proof.
  intros Hs Ht. unfold part.
  rewrite (kin_from_seal_tone_crt seal tone Hs Ht), bind_Ok.
  destruct (getitem_in_range SEALS (seal - 1)) as (sn & -> & _).
  { change (Z.of_nat (length SEALS)) with 20. lia. }
  destruct (getitem_in_range TONES (tone - 1)) as (tn & -> & _).
  { change (Z.of_nat (length TONES)) with 13. lia. }
  destruct (getitem_in_range COLORS ((seal - 1) mod 4)) as (c & -> & _).
  { change (Z.of_nat (length COLORS)) with 4. apply Z.mod_pos_bound. lia. }
  rewrite !bind_Ok. eexists. repeat split; reflexivity.
Qed.

(** C4: for every valid date the oracle record is built without an
    exception.  Its Analog, Antipode, Guide and Occult parts carry the
    (seal, tone) pairs that the rules derive from the seal and tone of the
    date; each pair lies in 1..20 x 1..13 and the inverse search returns the
    Kin of the part for it. *)
Theorem full_oracle_never_raises (strftime_dmY : date -> string) (d : date) :
  datetime.valid d ->
  exists k t s c r,
    kin_from_date d = Ok (k, t, s, c)
    /\ full_oracle_for_date strftime_dmY d = Ok r
    /\ (selo_num (analogo r), tom_num (analogo r)) = (analog_seal s, t)
    /\ (selo_num (antipoda r), tom_num (antipoda r)) = (antipode_seal s, t)
    /\ guide_seal s t = Ok (selo_num (guia r)) /\ tom_num (guia r) = t
    /\ (selo_num (oculto r), tom_num (oculto r))
       = (occult_seal s, occult_tone t)
    /\ Forall (fun p => 1 <= selo_num p <= 20 /\ 1 <= tom_num p <= 13
                        /\ kin_from_seal_tone (selo_num p) (tom_num p)
                           = Ok (kin p))
              [analogo r; antipoda r; guia r; oculto r].
Proof.
  intros Hd.
  destruct (kin_from_date_shape d Hd) as (delta & c & Hk & _).
  cbv zeta in Hk.
  set (k := (delta + (ANCHOR_KIN - 1)) mod 260 + 1) in *.
  set (t := (k - 1) mod 13 + 1) in *.
  set (s := (k - 1) mod 20 + 1) in *.
  assert (1 <= t <= 13) as Ht
    by (pose proof (Z.mod_pos_bound (k - 1) 13 ltac:(lia)); subst t; lia).
  assert (1 <= s <= 20) as Hs
    by (pose proof (Z.mod_pos_bound (k - 1) 20 ltac:(lia)); subst s; lia).
  destruct (guide_seal_total s t Ht) as (g & Hg & _ & Hgr).
  specialize (Hgr Hs).
  pose proof (analog_seal_range s) as Ha.
  pose proof (antipode_seal_range s) as Han.
  pose proof (occult_seal_range s) as Hos.
  pose proof (occult_tone_range t) as Hot.
  destruct (part_ok s t Hs Ht) as (p0 & E0 & _).
  destruct (part_ok _ t Ha Ht) as (p1 & E1 & S1 & T1 & K1).
  destruct (part_ok _ t Han Ht) as (p2 & E2 & S2 & T2 & K2).
  destruct (part_ok g t Hgr Ht) as (p3 & E3 & S3 & T3 & K3).
  destruct (part_ok _ _ Hos Hot) as (p4 & E4 & S4 & T4 & K4).
  exists k, t, s, c. eexists. split; [exact Hk|].
  unfold full_oracle_for_date.
  rewrite Hk, bind_Ok. cbv beta iota zeta.
  rewrite Hg, bind_Ok, E0, bind_Ok, E1, bind_Ok, E2, bind_Ok, E3, bind_Ok,
    E4, bind_Ok.
  split; [reflexivity|]. simpl.
  rewrite S1, T1, S2, T2, S3, T3, S4, T4.
  repeat split; try reflexivity; try exact Hg.
  repeat constructor; simpl;
    rewrite ?S1, ?T1, ?S2, ?T2, ?S3, ?T3, ?S4, ?T4; lia || assumption.
Qed.

Lemma full_oracle_never_raises_witness :
  exists k t s c r,
    kin_from_date (mkdate 2019 2 7) = Ok (k, t, s, c)
    /\ full_oracle_for_date (fun _ => "07/02/2019"%string) (mkdate 2019 2 7)
       = Ok r
    /\ (selo_num (analogo r), tom_num (analogo r)) = (analog_seal s, t)
    /\ (selo_num (antipoda r), tom_num (antipoda r)) = (antipode_seal s, t)
    /\ guide_seal s t = Ok (selo_num (guia r)) /\ tom_num (guia r) = t
    /\ (selo_num (oculto r), tom_num (oculto r))
       = (occult_seal s, occult_tone t)
    /\ Forall (fun p => 1 <= selo_num p <= 20 /\ 1 <= tom_num p <= 13
                        /\ kin_from_seal_tone (selo_num p) (tom_num p)
                           = Ok (kin p))
              [analogo r; antipoda r; guia r; oculto r].
Proof.
  apply (full_oracle_never_raises (fun _ => "07/02/2019"%string)
           (mkdate 2019 2 7)).
  reflexivity.
Defined.

(** ** Worked dates *)

(** 7 February 2019: 2240 days after the anchor, one Feb 29 (2016) between. *)
Example oracle_2019_02_07 :
  exists r, full_oracle_for_date (fun _ => "07/02/2019"%string) (mkdate 2019 2 7)
            = Ok r
            /\ map kin [destino r; analogo r; antipoda r; guia r; oculto r]
               = [105; 14; 235; 105; 156].
Proof. eexists. split; vm_compute; reflexivity. Qed.

(** Feb 29 does not advance the cycle: 28 and 29 February 2020 share their
    Kin, and 1 March has the next one. *)
Example kin_across_feb29_2020 :
  kin_from_date (mkdate 2020 2 28) = Ok (231, 10, 11, "Azul"%string)
  /\ kin_from_date (mkdate 2020 2 29) = Ok (231, 10, 11, "Azul"%string)
  /\ kin_from_date (mkdate 2020 3 1) = Ok (232, 11, 12, "Amarelo"%string).
Proof. repeat split; vm_compute; reflexivity. Qed.

(** A date before the anchor, across the Feb 29 of 2012. *)
Example kin_before_anchor :
  _hunab_ku_adjust ANCHOR_DATE (mkdate 2012 2 28) = Ok 1
  /\ kin_from_date (mkdate 2012 2 28) = Ok (171, 2, 11, "Azul"%string).
Proof. split; vm_compute; reflexivity. Qed.

(** * Further properties of the program *)

(** ** Order of dates and ordinals *)

Lemma date_lt_trichotomy (x y : date) : date_lt x y \/ x = y \/ date_lt y x.
Proof.
  destruct (datetime.cmp x y) eqn:E.
  - right. left. apply cmp_eq. exact E.
  - left. apply cmp_lt. exact E.
  - right. right. apply cmp_lt. rewrite cmp_opp, E. reflexivity.
Qed.

Lemma toordinal_lt_iff (x y : date) :
  datetime.valid x -> datetime.valid y ->
  date_lt x y <-> toordinal x < toordinal y.
Proof.
  intros Hx Hy. split; [apply toordinal_lt; assumption|].
  intros Hlt. destruct (date_lt_trichotomy x y) as [H | [-> | H]];
    [exact H | lia |].
  pose proof (toordinal_lt y x Hy Hx H). lia.
Qed.

Lemma toordinal_inj (x y : date) :
  datetime.valid x -> datetime.valid y ->
  toordinal x = toordinal y -> x = y.
Proof.
  intros Hx Hy E. destruct (date_lt_trichotomy x y) as [H | [H | H]];
    [|exact H|].
  - pose proof (toordinal_lt x y Hx Hy H). lia.
  - pose proof (toordinal_lt y x Hy Hx H). lia.
Qed.

Lemma toordinal_le_iff (x y : date) :
  datetime.valid x -> datetime.valid y ->
  date_le x y <-> toordinal x <= toordinal y.
Proof.
  intros Hx Hy. unfold date_le. rewrite (toordinal_lt_iff x y Hx Hy).
  split.
  - intros [H | ->]; lia.
  - intros H. destruct (Z_lt_le_dec (toordinal x) (toordinal y)) as [Hlt|Hge];
      [left; exact Hlt | right; apply toordinal_inj; [assumption..|lia]].
Qed.

(** [date_le] on the fields. *)
Lemma date_le_fields (x y : date) :
  date_le x y
  <-> year x < year y
      \/ (year x = year y
          /\ (month x < month y \/ (month x = month y /\ day x <= day y))).
Proof.
  unfold date_le, date_lt. split.
  - intros [H | ->]; lia.
  - intros H.
    destruct (Z.eq_dec (year x) (year y)) as [Ey|Ey]; [|left; lia].
    destruct (Z.eq_dec (month x) (month y)) as [Em|Em]; [|left; lia].
    destruct (Z.eq_dec (day x) (day y)) as [Ed|Ed]; [|left; lia].
    right. destruct x, y; simpl in *; congruence.
Qed.

(** ** Counting with filters *)

Lemma filter_length_split {A : Type} (P Q R : A -> Prop)
    `{forall x, Decision (P x)} `{forall x, Decision (Q x)}
    `{forall x, Decision (R x)} (l : list A) :
  (forall x, x ∈ l -> (P x <-> Q x \/ R x)) ->
  (forall x, x ∈ l -> ~ (Q x /\ R x)) ->
  length (filter P l) = (length (filter Q l) + length (filter R l))%nat.
Proof.
  induction l as [|x l IH]; intros Hsplit Hdisj; [reflexivity|].
  assert (x ∈ x :: l) as Hx by left.
  specialize (Hsplit x Hx) as Hs. specialize (Hdisj x Hx) as Hd.
  assert (length (filter P l)
          = (length (filter Q l) + length (filter R l))%nat) as E
    by (apply IH; intros; [apply Hsplit | apply Hdisj]; right; assumption).
  rewrite !filter_cons.
  destruct (decide (P x)), (decide (Q x)), (decide (R x)); simpl;
    try lia; tauto.
Qed.

Lemma filter_eq_length (y0 : Z) (l : list Z) :
  NoDup l -> y0 ∈ l -> length (filter (fun y => y = y0) l) = 1%nat.
Proof.
  induction 1 as [|x l Hx Hnd IH]; intros Hin; [inversion Hin|].
  rewrite filter_cons. destruct (decide (x = y0)) as [->|Hne].
  - rewrite filter_none; [reflexivity|]. intros y Hy ->. contradiction.
  - apply IH. inversion Hin; subst; [contradiction | assumption].
Qed.

(** ** The adjustment as a difference of counts *)

(** The Feb 29 days of (lo, hi] are those up to [hi] that are not up to [lo]. *)
Lemma leap_days_between_diff (lo hi : date) :
  date_le lo hi ->
  leap_days_between lo hi = feb29_upto hi - feb29_upto lo.
Proof.
  intros Hle. unfold leap_days_between, feb29_upto.
  rewrite (filter_length_split (feb29_until hi) (feb29_until lo)
             (leap_day_in lo hi)); [lia | |].
  - intros y _. unfold feb29_until, leap_day_in.
    rewrite !date_le_fields in *. unfold date_lt. simpl. split.
    + intros [Hg Hhi].
      destruct (Z_lt_le_dec (year lo) y); [right; split; [assumption|lia]|].
      destruct (Z.eq_dec (year lo) y); [|left; split; [assumption|lia]].
      destruct (Z_lt_le_dec (month lo) 2); [right; split; [assumption|lia]|].
      destruct (Z.eq_dec (month lo) 2); [|left; split; [assumption|lia]].
      destruct (Z_lt_le_dec (day lo) 29); [right|left]; (split; [assumption|lia]).
    + intros [[Hg Hlo] | (Hg & Hlo & Hhi)]; (split; [assumption|lia]).
  - intros y _. unfold feb29_until, leap_day_in.
    rewrite !date_le_fields. unfold date_lt. simpl. lia.
Qed.

(** For valid dates the adjustment is the number of Feb 29 days up to the
    anchor minus the number up to the target. *)
Lemma hunab_ku_adjust_diff (anchor target : date) :
  datetime.valid anchor -> datetime.valid target ->
  _hunab_ku_adjust anchor target = Ok (feb29_upto anchor - feb29_upto target).
Proof.
  intros Ha Ht. rewrite (hunab_ku_adjust_cases anchor target Ha Ht). f_equal.
  destruct (datetime.cmp anchor target) eqn:E.
  - apply cmp_eq in E. subst. lia.
  - apply cmp_lt in E.
    rewrite leap_days_scanned_all, leap_days_between_diff by
      (assumption || (left; assumption)). lia.
  - assert (date_lt target anchor) as E'
      by (apply cmp_lt; rewrite cmp_opp, E; reflexivity).
    rewrite leap_days_scanned_all, leap_days_between_diff by
      (assumption || (left; assumption)). lia.
Qed.

(** X1: the adjustment is additive along a chain of valid dates, in any
    order: adjust(a, c) = adjust(a, b) + adjust(b, c). *)
Theorem hunab_ku_adjust_chain (a b c : date) :
  datetime.valid a -> datetime.valid b -> datetime.valid c ->
  exists x y,
    _hunab_ku_adjust a b = Ok x /\ _hunab_ku_adjust b c = Ok y
    /\ _hunab_ku_adjust a c = Ok (x + y).
Proof.
  intros Ha Hb Hc.
  rewrite (hunab_ku_adjust_diff a b Ha Hb), (hunab_ku_adjust_diff b c Hb Hc),
    (hunab_ku_adjust_diff a c Ha Hc).
  do 2 eexists. repeat split. f_equal. lia.
Qed.

Lemma hunab_ku_adjust_chain_witness :
  exists x y,
    _hunab_ku_adjust (mkdate 2020 3 1) (mkdate 1999 12 31) = Ok x
    /\ _hunab_ku_adjust (mkdate 1999 12 31) ANCHOR_DATE = Ok y
    /\ _hunab_ku_adjust (mkdate 2020 3 1) ANCHOR_DATE = Ok (x + y).
Proof.
  exact (hunab_ku_adjust_chain (mkdate 2020 3 1) (mkdate 1999 12 31)
           ANCHOR_DATE eq_refl eq_refl eq_refl).
Defined.

(** ** One day later *)

Lemma years_NoDup_elem (y : Z) :
  MINYEAR <= y <= MAXYEAR ->
  NoDup (seqZ MINYEAR (MAXYEAR - MINYEAR + 1))
  /\ y ∈ seqZ MINYEAR (MAXYEAR - MINYEAR + 1).
Proof.
  intros Hy. split; [apply NoDup_seqZ|]. apply elem_of_seqZ. lia.
Qed.

(** At most one year has its Feb 29 at a given date, and one has when the
    date is a valid Feb 29. *)
Lemma feb29_at_count (d : date) :
  datetime.valid d ->
  length (filter (feb29_at d) (seqZ MINYEAR (MAXYEAR - MINYEAR + 1)))
  = if decide (is_feb29 d) then 1%nat else 0%nat.
Proof.
  intros Hd. destruct (decide (is_feb29 d)) as [[Em Ed] | Hn].
  - assert (d = mkdate (year d) 2 29) as Hd'
      by (destruct d; simpl in *; congruence).
    rewrite Hd' in Hd. apply feb29_valid_iff in Hd as [Hy Hg].
    rewrite (list_filter_iff _ (fun y => y = year d)).
    + destruct (years_NoDup_elem (year d) Hy) as [Hnd Hin].
      apply filter_eq_length; assumption.
    + intros y. unfold feb29_at. split.
      * intros [_ <-]. reflexivity.
      * intros ->. split; [exact Hg | symmetry; exact Hd'].
  - rewrite filter_none; [reflexivity|].
    intros y _ [_ <-]. apply Hn. split; reflexivity.
Qed.

(** The count of Feb 29 days grows by one exactly on a Feb 29. *)
Lemma feb29_upto_next (d d' : date) :
  datetime.valid d -> datetime.valid d' ->
  toordinal d' = toordinal d + 1 ->
  feb29_upto d' = feb29_upto d + (if decide (is_feb29 d') then 1 else 0).
Proof.
  intros Hd Hd' Hnext. unfold feb29_upto.
  rewrite (filter_length_split (feb29_until d') (feb29_until d) (feb29_at d')).
  - rewrite (feb29_at_count d' Hd'). destruct (decide (is_feb29 d')); lia.
  - intros y Hy%elem_of_seqZ. unfold feb29_until, feb29_at.
    destruct (decide (gregorian_leap y)) as [Hg|Hg]; [|tauto].
    assert (datetime.valid (mkdate y 2 29)) as Hf
      by (apply feb29_valid_iff; split; [lia | exact Hg]).
    rewrite (toordinal_le_iff _ d' Hf Hd'), (toordinal_le_iff _ d Hf Hd).
    split.
    + intros [_ Hle].
      destruct (Z.eq_dec (toordinal (mkdate y 2 29)) (toordinal d')) as [E|E].
      * right. split; [exact Hg|]. apply toordinal_inj; assumption.
      * left. split; [exact Hg | lia].
    + intros [[_ Hle] | [_ <-]]; (split; [exact Hg | lia]).
  - intros y Hy%elem_of_seqZ. unfold feb29_until, feb29_at.
    intros [[Hg Hle] [_ <-]].
    assert (datetime.valid (mkdate y 2 29)) as Hf
      by (apply feb29_valid_iff; split; [lia | exact Hg]).
    apply (toordinal_le_iff _ d Hf Hd) in Hle. lia.
Qed.

(** The forward mapping in closed form: the Kin is the 1-based residue
    modulo 260 of the distance from the anchor in days that are not Feb 29,
    shifted by the anchor's Kin. *)
Lemma kin_from_date_closed (d : date) :
  datetime.valid d ->
  exists c,
    let k := (leap_free_day d - leap_free_day ANCHOR_DATE + (ANCHOR_KIN - 1))
               mod 260 + 1 in
    kin_from_date d = Ok (k, (k - 1) mod 13 + 1, (k - 1) mod 20 + 1, c)
    /\ COLORS !! Z.to_nat (((k - 1) mod 20 + 1 - 1) mod 4) = Some c.
Proof.
  intros Hd. unfold kin_from_date.
  rewrite (hunab_ku_adjust_diff ANCHOR_DATE d anchor_valid Hd), bind_Ok.
  cbv zeta.
  replace (datetime.sub_days d ANCHOR_DATE
           + (feb29_upto ANCHOR_DATE - feb29_upto d) + (ANCHOR_KIN - 1))
    with (leap_free_day d - leap_free_day ANCHOR_DATE + (ANCHOR_KIN - 1))
    by (unfold leap_free_day, datetime.sub_days; lia).
  set (k := (leap_free_day d - leap_free_day ANCHOR_DATE + (ANCHOR_KIN - 1))
              mod 260 + 1).
  destruct (getitem_in_range COLORS (((k - 1) mod 20 + 1 - 1) mod 4))
    as (c & Hc & Hlook).
  { change (Z.of_nat (length COLORS)) with 4. apply Z.mod_pos_bound. lia. }
  rewrite Hc, bind_Ok. exists c. split; [reflexivity | exact Hlook].
Qed.

(** X2: from one valid date to the next day the Kin advances by one step of
    the 260-cycle, except that a Feb 29 has the Kin of the Feb 28 before it. *)
Theorem kin_from_date_next_day (d d' : date) :
  datetime.valid d -> datetime.valid d' ->
  toordinal d' = toordinal d + 1 ->
  exists k t s c k' t' s' c',
    kin_from_date d = Ok (k, t, s, c)
    /\ kin_from_date d' = Ok (k', t', s', c')
    /\ k' = if decide (is_feb29 d') then k else k mod 260 + 1.
Proof.
  intros Hd Hd' Hnext.
  destruct (kin_from_date_closed d Hd) as (c & Hk & _).
  destruct (kin_from_date_closed d' Hd') as (c' & Hk' & _).
  cbv zeta in Hk, Hk'.
  do 8 eexists. split; [exact Hk|]. split; [exact Hk'|].
  unfold leap_free_day. rewrite (feb29_upto_next d d' Hd Hd' Hnext), Hnext.
  generalize (feb29_upto ANCHOR_DATE) (toordinal ANCHOR_DATE) (feb29_upto d)
    (toordinal d).
  intros na oa n o.
  unfold ANCHOR_KIN.
  destruct (decide (is_feb29 d')); Z.div_mod_to_equations; lia.
Qed.

Lemma kin_from_date_next_day_witness :
  exists k t s c k' t' s' c',
    kin_from_date (mkdate 2024 2 28) = Ok (k, t, s, c)
    /\ kin_from_date (mkdate 2024 2 29) = Ok (k', t', s', c')
    /\ k' = if decide (is_feb29 (mkdate 2024 2 29)) then k else k mod 260 + 1.
Proof.
  exact (kin_from_date_next_day (mkdate 2024 2 28) (mkdate 2024 2 29)
           eq_refl eq_refl eq_refl).
Defined.

(** X3: two valid dates have the same Kin, tone, seal and color exactly when
    their distance in days that are not Feb 29 is a multiple of 260. *)
Theorem kin_from_date_same_iff (d e : date) :
  datetime.valid d -> datetime.valid e ->
  kin_from_date d = kin_from_date e
  <-> (leap_free_day d - leap_free_day e) mod 260 = 0.
Proof.
  intros Hd He.
  destruct (kin_from_date_closed d Hd) as (c & Hk & Hc).
  destruct (kin_from_date_closed e He) as (c' & Hk' & Hc').
  cbv zeta in Hk, Hk', Hc, Hc'. rewrite Hk, Hk'.
  unfold ANCHOR_KIN in *.
  set (nd := leap_free_day d) in *. set (ne := leap_free_day e) in *.
  set (na := leap_free_day ANCHOR_DATE) in *. clearbody nd ne na. split.
  - intros E. inversion E as [[Ek Et Es Ec]]. clear - Ek.
    Z.div_mod_to_equations. lia.
  - intros E.
    assert ((nd - na + (206 - 1)) mod 260 = (ne - na + (206 - 1)) mod 260)
      as Ek by (clear - E; Z.div_mod_to_equations; lia).
    rewrite Ek in *. congruence.
Qed.

Lemma kin_from_date_same_iff_witness :
  kin_from_date (mkdate 2013 9 6) = kin_from_date ANCHOR_DATE
  <-> (leap_free_day (mkdate 2013 9 6) - leap_free_day ANCHOR_DATE) mod 260 = 0.
Proof.
  exact (kin_from_date_same_iff (mkdate 2013 9 6) ANCHOR_DATE eq_refl eq_refl).
Defined.

(** ** The inverse mapping: results and errors *)

Lemma kin_search_raises (seal tone : Z) (ks : list Z) (e : exn) :
  kin_search seal tone ks = Raise e -> e = ValueError.
Proof.
  induction ks as [|x ks IH]; simpl; [congruence|].
  destruct (((x - 1) mod 20 + 1 =? seal) && ((x - 1) mod 13 + 1 =? tone));
    [discriminate | exact IH].
Qed.

(** The inverse search returns [k] exactly when [k] is the Kin of 1..260
    with that seal and that tone. *)
Lemma kin_from_seal_tone_ok_iff (seal tone k : Z) :
  kin_from_seal_tone seal tone = Ok k
  <-> 1 <= k <= 260 /\ (k - 1) mod 20 + 1 = seal /\ (k - 1) mod 13 + 1 = tone.
Proof.
  unfold kin_from_seal_tone. split.
  - intros (Hin%elem_of_range & Hs & Ht)%kin_search_sound.
    split; [lia | tauto].
  - intros (Hk & Hs & Ht). apply kin_search_unique; try assumption.
    + apply elem_of_range. lia.
    + intros k' Hk'%elem_of_range Hs' Ht'.
      apply kin_residues_inj; [lia | lia | congruence | congruence].
Qed.

(** X4: the inverse search fails exactly on the pairs outside 1..20 x 1..13,
    always with ValueError, and a Kin it returns is in 1..260 and has the
    seal and the tone asked for. *)
Theorem kin_from_seal_tone_errors (seal tone : Z) :
  (kin_from_seal_tone seal tone = Raise ValueError
   <-> ~ (1 <= seal <= 20 /\ 1 <= tone <= 13))
  /\ (forall e, kin_from_seal_tone seal tone = Raise e -> e = ValueError)
  /\ (forall k, kin_from_seal_tone seal tone = Ok k ->
        1 <= k <= 260 /\ (k - 1) mod 20 + 1 = seal
        /\ (k - 1) mod 13 + 1 = tone).
Proof.
  split; [|split].
  - split.
    + intros E [Hs Ht]. rewrite (kin_from_seal_tone_crt seal tone Hs Ht) in E.
      discriminate.
    + intros Hout. destruct (kin_from_seal_tone seal tone) as [k|e] eqn:E.
      * exfalso. apply Hout.
        apply kin_from_seal_tone_ok_iff in E as (Hk & <- & <-).
        pose proof (Z.mod_pos_bound (k - 1) 20 ltac:(lia)).
        pose proof (Z.mod_pos_bound (k - 1) 13 ltac:(lia)). lia.
      * f_equal. exact (kin_search_raises _ _ _ _ E).
  - intros e. apply kin_search_raises.
  - intros k. apply kin_from_seal_tone_ok_iff.
Qed.

Lemma kin_from_seal_tone_errors_witness :
  kin_from_seal_tone 21 5 = Raise ValueError
  /\ kin_from_seal_tone 0 13 = Raise ValueError.
Proof.
  split.
  - apply (proj2 (proj1 (kin_from_seal_tone_errors 21 5))). lia.
  - apply (proj2 (proj1 (kin_from_seal_tone_errors 0 13))). lia.
Defined.

(** ** The seal and tone rules on all integers *)

(** On 1..20 the Antipode is ten seals away. *)
Lemma antipode_seal_shift (s : Z) :
  1 <= s <= 20 -> antipode_seal s = if s <=? 10 then s + 10 else s - 10.
Proof.
  intros Hs. unfold antipode_seal.
  destruct (Z.leb_spec s 10); Z.div_mod_to_equations; lia.
Qed.

(** X5: the Antipode rule is an involution on 1..20 without fixed point,
    and its result is in 1..20 for every integer argument. *)
Theorem antipode_involution :
  (forall s, 1 <= s <= 20 ->
     antipode_seal (antipode_seal s) = s /\ antipode_seal s <> s)
  /\ (forall s, 1 <= antipode_seal s <= 20).
Proof.
  split; [|exact antipode_seal_range].
  intros s Hs. rewrite (antipode_seal_shift s Hs).
  destruct (Z.leb_spec s 10).
  - rewrite antipode_seal_shift by lia.
    destruct (Z.leb_spec (s + 10) 10); lia.
  - rewrite antipode_seal_shift by lia.
    destruct (Z.leb_spec (s - 10) 10); lia.
Qed.

Lemma antipode_involution_witness :
  antipode_seal (antipode_seal 14) = 14 /\ antipode_seal 14 <> 14.
Proof. apply (proj1 antipode_involution 14). lia. Defined.

(** X6: the rules read their argument modulo the cycle: adding a multiple
    of 20 to the seal, or of 13 to the tone, does not change the result, and
    the Occult results are in 1..20 and 1..13 for every integer argument. *)
Theorem rules_periodic (x n : Z) :
  analog_seal (x + 20 * n) = analog_seal x
  /\ antipode_seal (x + 20 * n) = antipode_seal x
  /\ occult_seal (x + 20 * n) = occult_seal x
  /\ occult_tone (x + 13 * n) = occult_tone x
  /\ 1 <= occult_seal x <= 20 /\ 1 <= occult_tone x <= 13.
Proof.
  unfold analog_seal, antipode_seal, occult_seal at 1 2, occult_tone at 1 2.
  replace (x + 20 * n + 9) with (x + 9 + n * 20) by lia.
  replace (x + 20 * n) with (x + n * 20) by lia.
  replace (x + 13 * n) with (x + n * 13) by lia.
  rewrite !Z.mod_add by lia.
  repeat split; try reflexivity;
    apply occult_seal_range || apply occult_tone_range.
Qed.

(** The colors of the partner seals, as residues of (seal - 1) modulo 4. *)
Lemma rule_colors (s : Z) :
  1 <= s <= 20 ->
  (analog_seal s - 1) mod 4 = (1 - (s - 1)) mod 4
  /\ (antipode_seal s - 1) mod 4 = (s - 1 + 2) mod 4
  /\ (occult_seal s - 1) mod 4 = (3 - (s - 1)) mod 4.
Proof.
  intros Hs.
  rewrite (analog_seal_sum s Hs), (antipode_seal_shift s Hs),
    (occult_seal_sum s Hs).
  destruct (Z.eqb_spec s 19); [subst; repeat split; reflexivity|].
  destruct (Z.eqb_spec s 20); [subst; repeat split; reflexivity|].
  destruct (Z.leb_spec s 10); repeat split; Z.div_mod_to_equations; lia.
Qed.

(** X7: the colors of the rules: Analog pairs red with white and blue with
    yellow, Antipode red with blue and white with yellow, Occult red with
    yellow and white with blue.  With the colors numbered 0..3 as
    (seal - 1) mod 4, the color of the Analog sums with the source's to 1
    modulo 4, the Antipode's is two further, the Occult's sums to 3; so the
    seal and its three partners have four different colors. *)
Theorem rule_colors_distinct (s : Z) :
  1 <= s <= 20 ->
  (analog_seal s - 1) mod 4 = (1 - (s - 1)) mod 4
  /\ (antipode_seal s - 1) mod 4 = (s - 1 + 2) mod 4
  /\ (occult_seal s - 1) mod 4 = (3 - (s - 1)) mod 4
  /\ NoDup [(s - 1) mod 4; (analog_seal s - 1) mod 4;
            (antipode_seal s - 1) mod 4; (occult_seal s - 1) mod 4].
Proof.
  intros Hs. destruct (rule_colors s Hs) as (Ea & Ean & Eo).
  repeat split; try assumption.
  rewrite Ea, Ean, Eo.
  destruct (residue4_cases (s - 1)) as [E|[E|[E|E]]];
    repeat (constructor; [rewrite ?elem_of_cons, elem_of_nil;
                          Z.div_mod_to_equations; lia|]);
    constructor.
Qed.

Lemma rule_colors_distinct_witness :
  (analog_seal 6 - 1) mod 4 = (1 - (6 - 1)) mod 4
  /\ (antipode_seal 6 - 1) mod 4 = (6 - 1 + 2) mod 4
  /\ (occult_seal 6 - 1) mod 4 = (3 - (6 - 1)) mod 4
  /\ NoDup [(6 - 1) mod 4; (analog_seal 6 - 1) mod 4;
            (antipode_seal 6 - 1) mod 4; (occult_seal 6 - 1) mod 4].
Proof. apply (rule_colors_distinct 6). lia. Defined.

(** ** The Guide rule: errors and repetition *)

Lemma guide_index_missing (tone : Z) :
  ~ (1 <= tone <= 13) -> GUIDE_INDEX_BY_TONE !! tone = None.
Proof.
  intros Hout. apply not_elem_of_list_to_map_1. simpl. intros Hin.
  apply Hout. elem_cases Hin; subst; lia.
Qed.

Lemma dict_get_Some {K : Type} `{Countable K} {V : Type}
    (d : gmap K V) (k : K) (v : V) :
  d !! k = Some v -> Py.dict_get d k = Ok v.
Proof. intros E. unfold Py.dict_get. rewrite E. reflexivity. Qed.

Lemma dict_get_None {K : Type} `{Countable K} {V : Type}
    (d : gmap K V) (k : K) :
  d !! k = None -> Py.dict_get d k = Raise KeyError.
Proof. intros E. unfold Py.dict_get. rewrite E. reflexivity. Qed.

(** A tone outside 1..13 is missing from the index table. *)
Lemma guide_seal_out_of_range (seal tone : Z) :
  ~ (1 <= tone <= 13) -> guide_seal seal tone = Raise KeyError.
Proof.
  intros Hout. unfold guide_seal.
  destruct (Z.eqb_spec tone 1); [lia|].
  destruct (Z.eqb_spec tone 6); [lia|].
  destruct (Z.eqb_spec tone 11); [lia|]. simpl.
  destruct (COLOR_GROUPS_color_group seal) as (color & -> & Hgroup).
  rewrite bind_Ok, (dict_get_Some _ _ _ Hgroup), bind_Ok.
  rewrite (dict_get_None _ _ (guide_index_missing tone Hout)). reflexivity.
Qed.

(** X8: the Guide rule fails exactly for the tones outside 1..13, whatever
    the seal, and then with KeyError from the index table; the None entries
    of the table are never used as an index. *)
Theorem guide_seal_errors (seal tone : Z) :
  (guide_seal seal tone = Raise KeyError <-> ~ (1 <= tone <= 13))
  /\ (forall e, guide_seal seal tone = Raise e -> e = KeyError).
Proof.
  pose proof (guide_seal_out_of_range seal tone) as Hout.
  assert (1 <= tone <= 13 -> exists g, guide_seal seal tone = Ok g) as Hin.
  { intros Ht. destruct (guide_seal_total seal tone Ht) as (g & Hg & _).
    exists g. exact Hg. }
  split; [split|].
  - intros E Ht. destruct (Hin Ht) as [g Hg]. congruence.
  - exact Hout.
  - intros e E. destruct (decide (1 <= tone <= 13)) as [Ht|Ht].
    + destruct (Hin Ht) as [g Hg]. congruence.
    + rewrite (Hout Ht) in E. congruence.
Qed.

Lemma guide_seal_errors_witness :
  guide_seal 5 14 = Raise KeyError /\ guide_seal 5 0 = Raise KeyError.
Proof.
  split.
  - apply (proj2 (proj1 (guide_seal_errors 5 14))). lia.
  - apply (proj2 (proj1 (guide_seal_errors 5 0))). lia.
Defined.

(** X9: the Guide of a Guide is itself: a Guide seal, taken as source with
    the same tone, guides itself. *)
Theorem guide_seal_idempotent (seal tone g : Z) :
  guide_seal seal tone = Ok g -> guide_seal g tone = Ok g.
Proof.
  intros Hg.
  assert (1 <= tone <= 13) as Ht.
  { destruct (decide (1 <= tone <= 13)) as [Ht|Ht]; [exact Ht|].
    rewrite (guide_seal_out_of_range seal tone Ht) in Hg. discriminate. }
  destruct (guide_index_cases tone Ht) as [Hself | [i Hi]].
  - apply guide_seal_self. exact Hself.
  - destruct (guide_seal_member seal tone i Hi) as [Hr Hs].
    destruct (guide_seal_member g tone i Hi) as [_ Hgg].
    rewrite Hs in Hg. injection Hg as <-. rewrite Hgg. f_equal.
    pose proof (Z.mod_pos_bound (seal - 1) 4 ltac:(lia)).
    replace ((seal - 1) mod 4 + 1 + 4 * i - 1) with ((seal - 1) mod 4 + i * 4)
      by lia.
    rewrite Z.mod_add, Z.mod_mod by lia. reflexivity.
Qed.

Lemma guide_seal_idempotent_witness :
  guide_seal 7 9 = Ok 3 /\ guide_seal 3 9 = Ok 3.
Proof.
  assert (guide_seal 7 9 = Ok 3) as H by (vm_compute; reflexivity).
  split; [exact H | exact (guide_seal_idempotent 7 9 3 H)].
Defined.

(** ** The parts of the oracle record *)

Lemma getitem_nonneg_inv {A : Type} (l : list A) (i : Z) (x : A) :
  0 <= i -> Py.getitem l i = Ok x -> l !! Z.to_nat i = Some x.
Proof.
  intros Hi. unfold Py.getitem.
  destruct (Z.ltb_spec i 0); [lia|].
  destruct ((0 <=? i) && (i <? Z.of_nat (length l))); [|discriminate].
  destruct (l !! Z.to_nat i); [congruence | discriminate].
Qed.

(** What a part built by [part] holds. *)
Lemma part_inv (seal tone : Z) (p : oracle_part) :
  part seal tone = Ok p ->
  selo_num p = seal /\ tom_num p = tone
  /\ kin_from_seal_tone seal tone = Ok (kin p)
  /\ COLORS !! Z.to_nat ((seal - 1) mod 4) = Some (cor p).
Proof.
  unfold part.
  destruct (kin_from_seal_tone seal tone) as [k|] eqn:Ek; [|discriminate].
  rewrite bind_Ok.
  destruct (Py.getitem SEALS (seal - 1)) as [sn|]; [|discriminate].
  rewrite bind_Ok.
  destruct (Py.getitem TONES (tone - 1)) as [tn|]; [|discriminate].
  rewrite bind_Ok.
  destruct (Py.getitem COLORS ((seal - 1) mod 4)) as [c|] eqn:Ec;
    [|discriminate].
  rewrite bind_Ok. intros [= <-]. simpl. repeat split.
  apply getitem_nonneg_inv; [|exact Ec]. apply Z.mod_pos_bound. lia.
Qed.

(** The record of a valid date, part by part: each part is what [part]
    builds for the pair of its rule, and the destiny part, with its Kin and
    color taken from the forward mapping, is the one [part] builds for the
    seal and tone of the date. *)
Lemma full_oracle_parts (strftime_dmY : date -> string) (d : date) :
  datetime.valid d ->
  exists k t s c g r,
    kin_from_date d = Ok (k, t, s, c)
    /\ 1 <= k <= 260 /\ t = (k - 1) mod 13 + 1 /\ s = (k - 1) mod 20 + 1
    /\ guide_seal s t = Ok g
    /\ (g - 1) mod 4 = (s - 1) mod 4
    /\ full_oracle_for_date strftime_dmY d = Ok r
    /\ part s t = Ok (destino r) /\ kin (destino r) = k /\ cor (destino r) = c
    /\ part (analog_seal s) t = Ok (analogo r)
    /\ part (antipode_seal s) t = Ok (antipoda r)
    /\ part g t = Ok (guia r)
    /\ part (occult_seal s) (occult_tone t) = Ok (oculto r).
Proof.
  intros Hd.
  destruct (kin_from_date_shape d Hd) as (delta & c & Hk & Hc).
  cbv zeta in Hk, Hc.
  set (k := (delta + (ANCHOR_KIN - 1)) mod 260 + 1) in *.
  set (t := (k - 1) mod 13 + 1) in *.
  set (s := (k - 1) mod 20 + 1) in *.
  assert (1 <= k <= 260) as Hkr
    by (pose proof (Z.mod_pos_bound (delta + (ANCHOR_KIN - 1)) 260 ltac:(lia));
        subst k; lia).
  assert (1 <= t <= 13) as Ht
    by (pose proof (Z.mod_pos_bound (k - 1) 13 ltac:(lia)); subst t; lia).
  assert (1 <= s <= 20) as Hs
    by (pose proof (Z.mod_pos_bound (k - 1) 20 ltac:(lia)); subst s; lia).
  destruct (guide_seal_total s t Ht) as (g & Hg & Hgc & Hgr).
  specialize (Hgr Hs).
  destruct (part_ok s t Hs Ht) as (p0 & E0 & _).
  destruct (part_ok _ t (analog_seal_range s) Ht) as (p1 & E1 & _).
  destruct (part_ok _ t (antipode_seal_range s) Ht) as (p2 & E2 & _).
  destruct (part_ok g t Hgr Ht) as (p3 & E3 & _).
  destruct (part_ok _ _ (occult_seal_range s) (occult_tone_range t))
    as (p4 & E4 & _).
  destruct (part_inv s t p0 E0) as (_ & _ & K0 & C0).
  assert (kin p0 = k) as Ekin.
  { apply kin_from_seal_tone_ok_iff in K0 as (Hk0 & Hs0 & Ht0).
    apply kin_residues_inj; [lia | lia | exact Hs0 | exact Ht0]. }
  assert (cor p0 = c) as Ecor by congruence.
  exists k, t, s, c, g. eexists.
  split; [exact Hk|]. split; [exact Hkr|]. do 2 (split; [reflexivity|]).
  split; [exact Hg|]. split; [exact Hgc|].
  unfold full_oracle_for_date.
  rewrite Hk, bind_Ok. cbv beta iota zeta.
  rewrite Hg, bind_Ok, E0, bind_Ok, E1, bind_Ok, E2, bind_Ok, E3, bind_Ok,
    E4, bind_Ok.
  split; [reflexivity|]. simpl.
  repeat split; try reflexivity; try assumption.
  f_equal. destruct p0; simpl in *; congruence.
Qed.

(** X10: in the record of a valid date the destiny part, whose Kin and color
    come from the forward mapping, is the part that the inverse lookup
    builds for the date's seal and tone: the inverse lookup of the date's
    seal and tone returns the date's Kin, and the color read for the seal
    is the date's color. *)
Theorem oracle_destiny_part (strftime_dmY : date -> string) (d : date) :
  datetime.valid d ->
  exists k t s c r,
    kin_from_date d = Ok (k, t, s, c)
    /\ full_oracle_for_date strftime_dmY d = Ok r
    /\ part s t = Ok (destino r)
    /\ kin_from_seal_tone s t = Ok k
    /\ destino r
       = mkpart k s (selo_nome (destino r)) t (tom_nome (destino r)) c.
Proof.
  intros Hd.
  destruct (full_oracle_parts strftime_dmY d Hd)
    as (k & t & s & c & g & r & Hk & _ & _ & _ & _ & _ & Hr & Hp & Ek & Ec & _).
  exists k, t, s, c, r. repeat split; try assumption.
  - destruct (part_inv s t _ Hp) as (_ & _ & K & _). congruence.
  - destruct (part_inv s t _ Hp) as (Es & Et & _).
    destruct (destino r); simpl in *; congruence.
Qed.

Lemma oracle_destiny_part_witness :
  exists k t s c r,
    kin_from_date (mkdate 1987 8 16) = Ok (k, t, s, c)
    /\ full_oracle_for_date (fun _ => "16/08/1987"%string) (mkdate 1987 8 16)
       = Ok r
    /\ part s t = Ok (destino r)
    /\ kin_from_seal_tone s t = Ok k
    /\ destino r
       = mkpart k s (selo_nome (destino r)) t (tom_nome (destino r)) c.
Proof.
  exact (oracle_destiny_part (fun _ => "16/08/1987"%string) (mkdate 1987 8 16)
           eq_refl).
Defined.

(** The Kin of the Occult pair and of the Antipode pair of a Kin. *)
Lemma occult_antipode_kin (k : Z) :
  1 <= k <= 260 ->
  kin_from_seal_tone (occult_seal ((k - 1) mod 20 + 1))
                     (occult_tone ((k - 1) mod 13 + 1)) = Ok (261 - k)
  /\ kin_from_seal_tone (antipode_seal ((k - 1) mod 20 + 1))
                        ((k - 1) mod 13 + 1) = Ok ((k + 129) mod 260 + 1).
Proof.
  intros Hk.
  pose proof (Z.mod_pos_bound (k - 1) 20 ltac:(lia)) as B20.
  pose proof (Z.mod_pos_bound (k - 1) 13 ltac:(lia)) as B13.
  split; apply kin_from_seal_tone_ok_iff.
  - rewrite occult_seal_sum, occult_tone_sum by lia.
    repeat split; try lia; Z.div_mod_to_equations; lia.
  - rewrite antipode_seal_shift by lia.
    pose proof (Z.mod_pos_bound (k + 129) 260 ltac:(lia)).
    destruct (Z.leb_spec ((k - 1) mod 20 + 1) 10);
      repeat split; try lia; Z.div_mod_to_equations; lia.
Qed.

(** X11: in the record of a valid date the Occult Kin and the destiny Kin
    sum to 261 (their seals to 21, their tones to 14), the Antipode Kin is
    130 Kins away from the destiny Kin in the 260-cycle, and the five Kins
    are in 1..260. *)
Theorem oracle_kin_relations (strftime_dmY : date -> string) (d : date) :
  datetime.valid d ->
  exists r,
    full_oracle_for_date strftime_dmY d = Ok r
    /\ kin (oculto r) + kin (destino r) = 261
    /\ selo_num (oculto r) + selo_num (destino r) = 21
    /\ tom_num (oculto r) + tom_num (destino r) = 14
    /\ kin (antipoda r) = (kin (destino r) + 129) mod 260 + 1
    /\ Forall (fun p => 1 <= kin p <= 260)
              [destino r; analogo r; antipoda r; guia r; oculto r].
Proof.
  intros Hd.
  destruct (full_oracle_parts strftime_dmY d Hd)
    as (k & t & s & c & g & r & _ & Hk & -> & -> & _ & _ & Hr & Hp & Ek & _
        & Ha & Han & Hg & Ho).
  destruct (occult_antipode_kin k Hk) as [Eo Ean].
  pose proof (Z.mod_pos_bound (k - 1) 20 ltac:(lia)) as B20.
  pose proof (Z.mod_pos_bound (k - 1) 13 ltac:(lia)) as B13.
  apply part_inv in Hp as (Sp & Tp & _ & _).
  apply part_inv in Ha as (_ & _ & Ka & _).
  apply part_inv in Han as (_ & _ & Kan & _).
  apply part_inv in Hg as (_ & _ & Kg & _).
  apply part_inv in Ho as (So & To & Ko & _).
  exists r. split; [exact Hr|].
  split; [rewrite Eo in Ko; injection Ko; lia|].
  split; [rewrite So, Sp, occult_seal_sum by lia; lia|].
  split; [rewrite To, Tp, occult_tone_sum by lia; lia|].
  split; [rewrite Ean in Kan; injection Kan; intros <-; rewrite Ek;
          reflexivity|].
  apply kin_from_seal_tone_ok_iff in Ka as [? _].
  apply kin_from_seal_tone_ok_iff in Kan as [? _].
  apply kin_from_seal_tone_ok_iff in Kg as [? _].
  apply kin_from_seal_tone_ok_iff in Ko as [? _].
  repeat constructor; lia.
Qed.

Lemma oracle_kin_relations_witness :
  exists r,
    full_oracle_for_date (fun _ => "16/08/1987"%string) (mkdate 1987 8 16)
    = Ok r
    /\ kin (oculto r) + kin (destino r) = 261
    /\ selo_num (oculto r) + selo_num (destino r) = 21
    /\ tom_num (oculto r) + tom_num (destino r) = 14
    /\ kin (antipoda r) = (kin (destino r) + 129) mod 260 + 1
    /\ Forall (fun p => 1 <= kin p <= 260)
              [destino r; analogo r; antipoda r; guia r; oculto r].
Proof.
  exact (oracle_kin_relations (fun _ => "16/08/1987"%string)
           (mkdate 1987 8 16) eq_refl).
Defined.

(** X12: in the record of a valid date the Guide part has the tone and the
    color of the destiny part, its Kin is a multiple of 52 away from the
    destiny Kin, and for the tones 1, 6 and 11 it is the destiny part
    itself. *)
Theorem oracle_guide_part (strftime_dmY : date -> string) (d : date) :
  datetime.valid d ->
  exists r,
    full_oracle_for_date strftime_dmY d = Ok r
    /\ tom_num (guia r) = tom_num (destino r)
    /\ cor (guia r) = cor (destino r)
    /\ (kin (guia r) - kin (destino r)) mod 52 = 0
    /\ (tom_num (destino r) = 1 \/ tom_num (destino r) = 6
        \/ tom_num (destino r) = 11 -> guia r = destino r).
Proof.
  intros Hd.
  destruct (full_oracle_parts strftime_dmY d Hd)
    as (k & t & s & c & g & r & _ & Hkr & Ett & Ess & Hg & Hgc & Hr & Hp
        & Ek & _ & _ & _ & Hgp & _).
  destruct (part_inv s t _ Hp) as (_ & Et & _ & Ec).
  destruct (part_inv g t _ Hgp) as (_ & Egt & Kg & Egc).
  exists r. split; [exact Hr|]. split; [congruence|].
  split; [rewrite Hgc in Egc; congruence|].
  split.
  { apply kin_from_seal_tone_ok_iff in Kg as (Hkg & Hsg & Htg).
    rewrite Ek. clear - Hkr Ett Ess Hgc Hkg Hsg Htg. subst s t g.
    Z.div_mod_to_equations. lia. }
  rewrite Et. intros Hself.
  rewrite (guide_seal_self s t Hself) in Hg. injection Hg as <-. congruence.
Qed.

Lemma oracle_guide_part_witness :
  exists r,
    full_oracle_for_date (fun _ => "07/02/2019"%string) (mkdate 2019 2 7) = Ok r
    /\ tom_num (guia r) = tom_num (destino r)
    /\ cor (guia r) = cor (destino r)
    /\ (kin (guia r) - kin (destino r)) mod 52 = 0
    /\ (tom_num (destino r) = 1 \/ tom_num (destino r) = 6
        \/ tom_num (destino r) = 11 -> guia r = destino r).
Proof.
  exact (oracle_guide_part (fun _ => "07/02/2019"%string) (mkdate 2019 2 7)
           eq_refl).
Defined.

(** X13: in the record of a valid date the destiny, Analog, Antipode and
    Occult parts have four different colors. *)
Theorem oracle_four_colors (strftime_dmY : date -> string) (d : date) :
  datetime.valid d ->
  exists r,
    full_oracle_for_date strftime_dmY d = Ok r
    /\ NoDup [cor (destino r); cor (analogo r); cor (antipoda r);
              cor (oculto r)].
Proof.
  intros Hd.
  destruct (full_oracle_parts strftime_dmY d Hd)
    as (k & t & s & c & g & r & _ & Hk & _ & Es & _ & _ & Hr & Hp & _ & _
        & Ha & Han & _ & Ho).
  assert (1 <= s <= 20) as Hs
    by (pose proof (Z.mod_pos_bound (k - 1) 20 ltac:(lia)); lia).
  destruct (rule_colors s Hs) as (Ra & Ran & Ro).
  apply part_inv in Hp as (_ & _ & _ & C0).
  apply part_inv in Ha as (_ & _ & _ & C1).
  apply part_inv in Han as (_ & _ & _ & C2).
  apply part_inv in Ho as (_ & _ & _ & C3).
  rewrite Ra in C1. rewrite Ran in C2. rewrite Ro in C3.
  exists r. split; [exact Hr|].
  clear - C0 C1 C2 C3.
  destruct (residue4_cases (s - 1)) as [E|[E|[E|E]]];
    [ replace ((1 - (s - 1)) mod 4) with 1 in C1
        by (Z.div_mod_to_equations; lia);
      replace ((s - 1 + 2) mod 4) with 2 in C2
        by (Z.div_mod_to_equations; lia);
      replace ((3 - (s - 1)) mod 4) with 3 in C3
        by (Z.div_mod_to_equations; lia)
    | replace ((1 - (s - 1)) mod 4) with 0 in C1
        by (Z.div_mod_to_equations; lia);
      replace ((s - 1 + 2) mod 4) with 3 in C2
        by (Z.div_mod_to_equations; lia);
      replace ((3 - (s - 1)) mod 4) with 2 in C3
        by (Z.div_mod_to_equations; lia)
    | replace ((1 - (s - 1)) mod 4) with 3 in C1
        by (Z.div_mod_to_equations; lia);
      replace ((s - 1 + 2) mod 4) with 0 in C2
        by (Z.div_mod_to_equations; lia);
      replace ((3 - (s - 1)) mod 4) with 1 in C3
        by (Z.div_mod_to_equations; lia)
    | replace ((1 - (s - 1)) mod 4) with 2 in C1
        by (Z.div_mod_to_equations; lia);
      replace ((s - 1 + 2) mod 4) with 1 in C2
        by (Z.div_mod_to_equations; lia);
      replace ((3 - (s - 1)) mod 4) with 0 in C3
        by (Z.div_mod_to_equations; lia) ];
    rewrite E in C0; simpl in C0, C1, C2, C3;
    injection C0 as <-; injection C1 as <-; injection C2 as <-;
    injection C3 as <-;
    repeat (constructor; [rewrite ?elem_of_cons, elem_of_nil;
                          intuition discriminate|]);
    constructor.
Qed.

Lemma oracle_four_colors_witness :
  exists r,
    full_oracle_for_date (fun _ => "07/02/2019"%string) (mkdate 2019 2 7) = Ok r
    /\ NoDup [cor (destino r); cor (analogo r); cor (antipoda r);
              cor (oculto r)].
Proof.
  exact (oracle_four_colors (fun _ => "07/02/2019"%string) (mkdate 2019 2 7)
           eq_refl).
Defined.

(** ** Anniversaries *)

(** Two consecutive years are not both leap years. *)
Lemma leap_not_consecutive (y : Z) :
  _is_leap y = true -> _is_leap (y + 1) = true -> False.
Proof.
  unfold _is_leap. intros [L1 _]%andb_true_iff [L2 _]%andb_true_iff.
  apply Z.eqb_eq in L1, L2. Z.div_mod_to_equations. lia.
Qed.

(** A date whose day and month exist in the next year too is at most a
    Feb 28 when it is in February. *)
Lemma feb_day_bound (d : date) :
  datetime.valid d ->
  datetime.valid (mkdate (year d + 1) (month d) (day d)) ->
  month d = 2 -> day d <= 28.
Proof.
  intros (Hm & Hd)%valid_fields (Hm' & Hd')%valid_fields E.
  simpl in Hm', Hd'. rewrite E in Hd, Hd'. unfold _days_in_month in Hd, Hd'.
  change is_leap_year with _is_leap in Hd, Hd'.
  destruct (_is_leap (year d)) eqn:L1, (_is_leap (year d + 1)) eqn:L2;
    simpl in Hd, Hd'; try lia.
  destruct (leap_not_consecutive (year d) L1 L2).
Qed.

(** Between a date and the same day of the next year lies the Feb 29 of the
    first year for a date up to February, of the second year after it. *)
Lemma leap_days_scanned_next_year (d : date) :
  datetime.valid d ->
  datetime.valid (mkdate (year d + 1) (month d) (day d)) ->
  leap_days_scanned d (mkdate (year d + 1) (month d) (day d))
  = if 2 <? month d
    then (if _is_leap (year d + 1) then 1 else 0)
    else (if _is_leap (year d) then 1 else 0).
Proof.
  intros Hd Hd'. pose proof (feb_day_bound d Hd Hd') as Hfeb.
  destruct (valid_fields d Hd) as [Hm Hday].
  assert (leap_day_in d (mkdate (year d + 1) (month d) (day d)) (year d)
          <-> _is_leap (year d) = true /\ month d <= 2) as HA.
  { unfold leap_day_in. rewrite date_le_fields, is_leap_gregorian.
    unfold date_lt. simpl. split; [intros (Hg & Hlt & _) | intros [Hg Hle]].
    - split; [exact Hg | lia].
    - split; [exact Hg|]. split; [|lia].
      destruct (Z.eq_dec (month d) 2) as [E|E]; [specialize (Hfeb E)|]; lia. }
  assert (leap_day_in d (mkdate (year d + 1) (month d) (day d)) (year d + 1)
          <-> _is_leap (year d + 1) = true /\ 2 < month d) as HB.
  { unfold leap_day_in. rewrite date_le_fields, is_leap_gregorian.
    unfold date_lt. simpl. split; [intros (Hg & _ & Hle) | intros [Hg Hlt]].
    - split; [exact Hg|].
      destruct (Z.eq_dec (month d) 2) as [E|E]; [specialize (Hfeb E)|]; lia.
    - split; [exact Hg|]. split; lia. }
  unfold leap_days_scanned, Py.range. simpl year.
  replace (year d + 1 + 1 - year d) with 2 by lia.
  rewrite (seqZ_cons _ 2) by lia. simpl Z.pred.
  rewrite (seqZ_cons _ 1) by lia. simpl Z.pred.
  rewrite seqZ_nil by lia.
  replace (Z.succ (year d)) with (year d + 1) by lia.
  rewrite !filter_cons, filter_nil.
  destruct (decide (leap_day_in d _ (year d))) as [H1|H1];
    destruct (decide (leap_day_in d _ (year d + 1))) as [H2|H2];
    rewrite ?HA, ?HB in H1, H2;
    destruct (Z.ltb_spec 2 (month d));
    destruct (_is_leap (year d)) eqn:L1;
    destruct (_is_leap (year d + 1)) eqn:L2;
    try reflexivity;
    try (destruct (leap_not_consecutive (year d) L1 L2));
    exfalso; intuition (try lia; try discriminate).
Qed.

(** One year later, on the same day of the same month, 365 days that are
    not Feb 29 have passed. *)
Lemma leap_free_day_next_year (d : date) :
  datetime.valid d ->
  datetime.valid (mkdate (year d + 1) (month d) (day d)) ->
  leap_free_day (mkdate (year d + 1) (month d) (day d))
  = leap_free_day d + 365.
Proof.
  intros Hd Hd'.
  assert (date_le d (mkdate (year d + 1) (month d) (day d))) as Hle
    by (left; left; simpl; lia).
  pose proof (leap_days_between_diff _ _ Hle) as Hdiff.
  rewrite <- (leap_days_scanned_all _ _ Hd Hd') in Hdiff.
  rewrite (leap_days_scanned_next_year d Hd Hd') in Hdiff.
  unfold leap_free_day, toordinal, _ymd2ord. simpl.
  rewrite days_before_year_succ. unfold _days_before_month.
  change is_leap_year with _is_leap.
  destruct (Z.ltb_spec 2 (month d));
    destruct (_is_leap (year d)); destruct (_is_leap (year d + 1));
    simpl in *; lia.
Qed.

(** A date that is not a Feb 29 exists in every year of the calendar. *)
Lemma same_day_valid (d : date) (y : Z) :
  datetime.valid d -> ~ is_feb29 d -> MINYEAR <= y <= MAXYEAR ->
  datetime.valid (mkdate y (month d) (day d)).
Proof.
  intros Hd Hn Hy. destruct (valid_fields d Hd) as [Hm Hday].
  unfold datetime.valid, check_date_fields. simpl.
  rewrite !andb_true_iff, !Z.leb_le. repeat split; try lia.
  revert Hday. unfold _days_in_month, is_feb29 in *.
  destruct (Z.eqb_spec (month d) 2) as [E|E]; simpl; [|lia].
  rewrite E. simpl.
  destruct (is_leap_year (year d)), (is_leap_year y); simpl; lia.
Qed.

Lemma leap_free_day_years (d : date) (n : nat) :
  datetime.valid d -> ~ is_feb29 d -> year d + Z.of_nat n <= MAXYEAR ->
  leap_free_day (mkdate (year d + Z.of_nat n) (month d) (day d))
  = leap_free_day d + 365 * Z.of_nat n.
Proof.
  intros Hd Hn. pose proof (valid_year d Hd) as Hy.
  induction n as [|n IH]; intros Hmax.
  - change (Z.of_nat 0) with 0. replace (year d + 0) with (year d) by lia.
    destruct d; simpl. lia.
  - rewrite Nat2Z.inj_succ in *.
    replace (year d + Z.succ (Z.of_nat n)) with (year d + Z.of_nat n + 1)
      by lia.
    assert (datetime.valid (mkdate (year d + Z.of_nat n) (month d) (day d)))
      as V1 by (apply same_day_valid; [assumption..|lia]).
    assert (datetime.valid
              (mkdate (year d + Z.of_nat n + 1) (month d) (day d)))
      as V2 by (apply same_day_valid; [assumption..|lia]).
    pose proof (leap_free_day_next_year _ V1 V2) as Hstep. simpl in Hstep.
    rewrite Hstep, IH by lia. lia.
Qed.

(** X14: the same day of the same month [n] years later (for a date that is
    not a Feb 29) has the Kin 105 * n steps further in the 260-cycle, each
    year counting 365 days; after 52 years, or a multiple, the Kin, tone,
    seal and color are those of the date again. *)
Theorem kin_from_date_anniversary (d : date) (n : Z) :
  datetime.valid d -> ~ is_feb29 d -> 0 <= n -> year d + n <= MAXYEAR ->
  exists k t s c k' t' s' c',
    kin_from_date d = Ok (k, t, s, c)
    /\ kin_from_date (mkdate (year d + n) (month d) (day d))
       = Ok (k', t', s', c')
    /\ k' = (k - 1 + 105 * n) mod 260 + 1
    /\ (n mod 52 = 0 -> (k', t', s', c') = (k, t, s, c)).
Proof.
  intros Hd Hn Hn0 Hmax. pose proof (valid_year d Hd) as Hy.
  assert (datetime.valid (mkdate (year d + n) (month d) (day d))) as Hd'
    by (apply same_day_valid; [assumption..|lia]).
  destruct (kin_from_date_closed d Hd) as (c & Hk & Hc).
  destruct (kin_from_date_closed _ Hd') as (c' & Hk' & Hc').
  cbv zeta in Hk, Hk', Hc, Hc'.
  pose proof (leap_free_day_years d (Z.to_nat n) Hd Hn) as Hyears.
  rewrite Z2Nat.id in Hyears by lia. rewrite Hyears in Hk', Hc' by lia.
  unfold ANCHOR_KIN in *.
  set (x := leap_free_day d - leap_free_day ANCHOR_DATE) in *.
  replace (leap_free_day d + 365 * n - leap_free_day ANCHOR_DATE)
    with (x + 365 * n) in Hk', Hc' by (subst x; lia).
  clearbody x.
  do 8 eexists. split; [exact Hk|]. split; [exact Hk'|].
  split; [Z.div_mod_to_equations; lia|].
  intros H52.
  assert ((x + 365 * n + (206 - 1)) mod 260 = (x + (206 - 1)) mod 260) as E
    by (clear - H52; Z.div_mod_to_equations; lia).
  rewrite E in *. congruence.
Qed.

Lemma kin_from_date_anniversary_witness :
  exists k t s c k' t' s' c',
    kin_from_date (mkdate 1987 8 16) = Ok (k, t, s, c)
    /\ kin_from_date (mkdate (1987 + 52) 8 16) = Ok (k', t', s', c')
    /\ k' = (k - 1 + 105 * 52) mod 260 + 1
    /\ (52 mod 52 = 0 -> (k', t', s', c') = (k, t, s, c)).
Proof.
  apply (kin_from_date_anniversary (mkdate 1987 8 16) 52);
    [reflexivity | intros [_ E]; discriminate E | lia | simpl; unfold MAXYEAR; lia].
Defined.
